(** * Microbiome–Host Association Explorer: a shallow embedding

    The program is one Streamlit script, [microbiome_explorer_app.py].
    It loads a reference table, optionally matches an uploaded list of
    microbe names against it by case-insensitive prefix, filters the
    matched rows by five multiselect widgets, sorts them by one column,
    renders the table and draws four frequency charts.

    The embedding follows the script top to bottom.  A pandas cell is a
    string or NaN; a DataFrame with the reference schema is a list of
    rows; an uploaded DataFrame, whose schema is not known, is a list of
    named columns.  Python exceptions and [st.stop()] are results of an
    error monad, and the widgets the script emits are collected in a
    log.  Text is restricted to ASCII: [str.lower], [str.strip] and the
    comparison of strings are the ASCII ones.  What pandas and NumPy do
    behind the calls of the script is modelled from their documented
    behaviour, next to the call it serves. *)

From stdpp Require Import base list strings gmap sorting.
From Stdlib Require Import Ascii.
From Stdlib Require String DecimalString.

Set Warnings "-clear-no-such-hyp".

(** ** Python strings *)

Module Py.

(** [c.isspace()] on the ASCII range. *)
Definition isspace (c : ascii) : bool :=
  let n := nat_of_ascii c in
  (Nat.leb 9 n && Nat.leb n 13) || (Nat.leb 28 n && Nat.leb n 32).

Definition lower_char (c : ascii) : ascii :=
  let n := nat_of_ascii c in
  if Nat.leb 65 n && Nat.leb n 90 then ascii_of_nat (n + 32) else c.

(** [s.lower()] *)
Fixpoint lower (s : string) : string :=
  match s with
  | EmptyString => EmptyString
  | String c s' => String (lower_char c) (lower s')
  end.

Fixpoint lstrip (s : string) : string :=
  match s with
  | EmptyString => EmptyString
  | String c s' => if isspace c then lstrip s' else s
  end.

Definition rstrip (s : string) : string := String.rev (lstrip (String.rev s)).

(** [s.strip()] *)
Definition strip (s : string) : string := rstrip (lstrip s).

(** [s.startswith(p)] *)
Definition startswith (s p : string) : bool := String.prefix p s.

(** [str(n)] for a non-negative integer. *)
Definition str (n : nat) : string := DecimalString.NilEmpty.string_of_uint (Nat.to_uint n).

End Py.

(** ** Cells, rows and tables *)

(** A cell read by [pd.read_csv]: a string, or NaN for a missing value. *)
Abbreviation cell := (option string).
Abbreviation NaN := (@None string).

(** One record of [disbiome_with_titles.csv]. *)
Record row : Type := Row {
  Microbe : cell;
  Condition : cell;
  Effect : cell;
  Sample_Type : cell;
  Host : cell;
  Method : cell;
  Study_Title : cell;
  PubMed_Link : cell
}.

Global Instance row_eq_dec : EqDecision row.
Proof. solve_decision. Defined.

(** A DataFrame with the reference schema: its rows in index order. *)
Abbreviation table := (list row).

(** An uploaded DataFrame: its columns by name, in file order. *)
Abbreviation dataframe := (list (string * list cell)).

(** ** Exceptions and the script monad *)

Inductive exn : Type :=
| KeyError (key : string)
| AttributeError (msg : string).

Inductive result (A : Type) : Type :=
| Ok (a : A)
| Raise (e : exn).
Global Arguments Ok {A} a.
Global Arguments Raise {A} e.

Global Instance result_ret : MRet result := λ A a, Ok a.
Global Instance result_bind : MBind result := λ A B f m,
  match m with
  | Ok a => f a
  | Raise e => Raise e
  end.

(** What the page shows: one event per Streamlit call that the claims
    look at. *)
Inductive ui_event : Type :=
| StError (msg : string)
| StWarning (msg : string)
| StSuccess (msg : string)
| StDataframe (header : string) (values : list cell)
| StDownloadUnmatched (file_name : string) (values : list cell)
| StTable (rows : list (list string))
| StDownloadFiltered (file_name : string) (rows : list (row * string))
| StChart (title : string) (data : list (string * nat)).

(** Why a run ends early: an uncaught exception or [st.stop()]. *)
Inductive halt : Type :=
| Raised (e : exn)
| Stopped.

(** A script fragment: the events it emitted and how it ended. *)
Definition script (A : Type) : Type := (list ui_event * (halt + A))%type.

Global Instance script_ret : MRet script := λ A a, ([], inr a).
Global Instance script_bind : MBind script := λ A B f m,
  match m with
  | (log, inr a) => let '(log', r) := f a in (log ++ log', r)
  | (log, inl h) => (log, inl h)
  end.

Definition emit (e : ui_event) : script unit := ([e], inr tt).
Definition st_stop {A} : script A := ([], inl Stopped).
Definition lift {A} (r : result A) : script A :=
  match r with
  | Ok a => ([], inr a)
  | Raise e => ([], inl (Raised e))
  end.

(** ** Series helpers *)

(** [x.lower()] on a cell: NaN is a float and has no such method. *)
Definition cell_lower (c : cell) : result string :=
  match c with
  | Some s => Ok (Py.lower s)
  | None => Raise (AttributeError "'float' object has no attribute 'lower'")
  end.

(** [Series.unique()]: first occurrences, in order of appearance. *)
Fixpoint unique_from {A} `{EqDecision A} (seen : list A) (l : list A) : list A :=
  match l with
  | [] => []
  | x :: l' =>
      if decide (x ∈ seen) then unique_from seen l'
      else x :: unique_from (x :: seen) l'
  end.
Definition unique {A} `{EqDecision A} (l : list A) : list A := unique_from [] l.

(** [df[name]] on an uploaded frame. *)
Fixpoint getitem (df : dataframe) (name : string) : result (list cell) :=
  match df with
  | [] => Raise (KeyError name)
  | (n, col) :: df' => if decide (n = name) then Ok col else getitem df' name
  end.

(** [df[name] = col]: replace the column, or append a new one. *)
Fixpoint setitem (df : dataframe) (name : string) (col : list cell) : dataframe :=
  match df with
  | [] => [(name, col)]
  | (n, c) :: df' =>
      if decide (n = name) then (n, col) :: df' else (n, c) :: setitem df' name col
  end.

(** [name in df.columns] *)
Definition has_column (df : dataframe) (name : string) : bool :=
  bool_decide (name ∈ df.*1).

(** [str.strip] under the [.str] accessor: NaN stays NaN. *)
Definition strip_cell (c : cell) : cell := Py.strip <$> c.

(** [col.str.strip()] on a column of text.  The [.str] accessor needs
    strings; a non-empty column of NaN only is read as float64 and is
    refused.  It refuses as well a column that [read_csv] reads as
    numbers or booleans, which cells that are text or missing do not
    describe: such uploads are outside the model, and so is the wording
    of the message, which differs between pandas 2 and 3. *)
Definition str_strip (col : list cell) : result (list cell) :=
  match col with
  | _ :: _ =>
      if forallb (λ c : cell, bool_decide (c = NaN)) col
      then Raise (AttributeError "Can only use .str accessor with string values!")
      else Ok (strip_cell <$> col)
  | [] => Ok []
  end.

(** ** The matcher (lines 27 to 37) *)

(** [any(ref.lower().startswith(q.lower()) for q in uploaded_microbes)]:
    the generator is consumed left to right and stops at the first hit. *)
Fixpoint any_query (ref : cell) (uploaded_microbes : list cell) : result bool :=
  match uploaded_microbes with
  | [] => Ok false
  | q :: qs =>
      r ← cell_lower ref;
      p ← cell_lower q;
      if Py.startswith r p then Ok true else any_query ref qs
  end.

(** [reference_df[reference_df["Microbe"].apply(lambda ref: any(...))]] *)
Fixpoint working_rows (reference_df : table) (uploaded_microbes : list cell)
  : result table :=
  match reference_df with
  | [] => Ok []
  | r :: rest =>
      b ← any_query (Microbe r) uploaded_microbes;
      rest' ← working_rows rest uploaded_microbes;
      Ok (if b : bool then r :: rest' else rest')
  end.

(** [[ref for ref in refs if ref.lower().startswith(q.lower())]]: the
    comprehension keeps the reference value itself, not its lowering. *)
Fixpoint matched_for (q : cell) (refs : list cell) : result (list string) :=
  match refs with
  | [] => Ok []
  | ref :: refs' =>
      r ← cell_lower ref;
      p ← cell_lower q;
      rest ← matched_for q refs';
      Ok (if Py.startswith r p then option_list ref ++ rest else rest)
  end.

(** The loop of lines 33 to 35 over [uploaded_microbes], updating the set. *)
Fixpoint matched_loop (uploaded_microbes refs : list cell)
    (matched_microbes : gset string) : result (gset string) :=
  match uploaded_microbes with
  | [] => Ok matched_microbes
  | q :: qs =>
      matched ← matched_for q refs;
      matched_loop qs refs (matched_microbes ∪ list_to_set matched)
  end.

(** [any(ref.lower().startswith(m.lower()) for ref in reference_df["Microbe"])] *)
Fixpoint any_reference (m : cell) (refs : list cell) : result bool :=
  match refs with
  | [] => Ok false
  | ref :: refs' =>
      r ← cell_lower ref;
      p ← cell_lower m;
      if Py.startswith r p then Ok true else any_reference m refs'
  end.

(** [[m for m in uploaded_microbes if not any(...)]] *)
Fixpoint unmatched_of (uploaded_microbes refs : list cell) : result (list cell) :=
  match uploaded_microbes with
  | [] => Ok []
  | m :: ms =>
      b ← any_reference m refs;
      rest ← unmatched_of ms refs;
      Ok (if b : bool then rest else m :: rest)
  end.

(** Lines 28 to 37: the working table, the matched reference values and
    the unmatched queries. *)
Definition matcher (reference_df : table) (uploaded_microbes : list cell)
  : result (table * gset string * list cell) :=
  working_df ← working_rows reference_df uploaded_microbes;
  matched_microbes ←
    matched_loop uploaded_microbes (unique (Microbe <$> reference_df)) ∅;
  unmatched ← unmatched_of uploaded_microbes (Microbe <$> reference_df);
  Ok (working_df, matched_microbes, unmatched).

(** ** The upload branch (lines 16 to 54) *)

Inductive mode : Type :=
| Upload_CSV_of_Microbes
| Explore_Entire_Dataset.

Definition schema_message : string :=
  "Your CSV must contain a column named 'Microbe'".
Definition no_match_message : string :=
  "None of your microbes were found in the reference.".

Definition nonnull (col : list cell) : list string := omap id col.

(** Lines 21 to 27: the queries read from [input_df], the frame that
    [pd.read_csv(uploaded_file)] returned on line 20.  A file that
    [read_csv] refuses (empty, ragged, undecodable) ends the run on line
    20 with the exception of [read_csv]; the model starts from the
    frame. *)
Definition read_queries (input_df : dataframe) : script (list cell) :=
  col ← lift (getitem input_df "Microbe");
  stripped ← lift (str_strip col);
  let input_df := setitem input_df "Microbe" stripped in
  (if has_column input_df "Microbe" then mret tt
   else emit (StError schema_message) ;; st_stop) ;;
  col ← lift (getitem input_df "Microbe");
  mret (unique col).

(** Lines 19 to 51, for no uploaded file or for the frame read from
    one. *)
Definition upload_branch (reference_df : table)
    (uploaded_file : option dataframe) : script table :=
  match uploaded_file with
  | Some input_df =>
      uploaded_microbes ← read_queries input_df;
      '(working_df, matched_microbes, unmatched) ←
        lift (matcher reference_df uploaded_microbes);
      (if bool_decide (working_df = []) then
         emit (StError no_match_message) ;; st_stop
       else mret tt) ;;
      (if bool_decide (unmatched = []) then mret tt
       else
         emit (StWarning (Py.str (length unmatched)
                 +:+ " microbes not found in the reference dataset.")) ;;
         emit (StDataframe "Unmatched Microbes" unmatched) ;;
         emit (StDownloadUnmatched "unmatched_microbes.csv" unmatched)) ;;
      emit (StSuccess ("Matched " +:+ Py.str (size matched_microbes)
              +:+ " microbes → " +:+ Py.str (length working_df)
              +:+ " entries found.")) ;;
      mret working_df
  | None =>
      emit (StWarning "Please upload a CSV file to continue.") ;; st_stop
  end.

(** Lines 16 to 54. *)
Definition working_table (reference_df : table) (m : mode)
    (uploaded_file : option dataframe) : script table :=
  match m with
  | Upload_CSV_of_Microbes => upload_branch reference_df uploaded_file
  | Explore_Entire_Dataset =>
      let working_df := reference_df in
      emit (StSuccess ("Loaded full dataset: "
              +:+ Py.str (length (unique (nonnull (Microbe <$> working_df))))
              +:+ " microbes, " +:+ Py.str (length working_df) +:+ " entries")) ;;
      mret working_df
  end.

(** ** The sidebar (lines 60 to 64) *)

(** [sorted(values)] on strings: ascending by code point.  The script
    sorts distinct values only, which have one ascending arrangement, so
    that nothing depends on how the sort goes about it. *)
Definition sorted (values : list string) : list string :=
  merge_sort String.le values.

(** [sorted(working_df[col].dropna().unique())]: what a multiselect
    offers (lines 60 to 64). *)
Definition options (col : row → cell) (working_df : table) : list string :=
  sorted (unique (nonnull (col <$> working_df))).

(** ** The filter (lines 73 to 83) *)

(** What the five multiselect widgets return.  The widgets offer the
    sorted distinct present values of the working table (lines 60 to 64)
    and return the chosen ones; the filter only looks at what is chosen,
    so the model takes any five lists of strings. *)
Record selections : Type := Selections {
  selected_microbe : list string;
  selected_condition : list string;
  selected_effect : list string;
  selected_sample : list string;
  selected_method : list string
}.

(** One element of [Series.isin(values)]; the values are strings, so NaN
    is never among them. *)
Definition isin (c : cell) (values : list string) : bool :=
  match c with
  | Some s => bool_decide (s ∈ values)
  | None => false
  end.

(** [if selected: df = df[df[col].isin(selected)]] *)
Definition filter_step (col : row → cell) (selected : list string)
    (filtered_df : table) : table :=
  match selected with
  | [] => filtered_df
  | _ :: _ => filter (λ r, isin (col r) selected) filtered_df
  end.

Definition filter_logic (working_df : table) (sel : selections) : table :=
  let filtered_df := working_df in
  let filtered_df := filter_step Microbe (selected_microbe sel) filtered_df in
  let filtered_df := filter_step Condition (selected_condition sel) filtered_df in
  let filtered_df := filter_step Effect (selected_effect sel) filtered_df in
  let filtered_df := filter_step Sample_Type (selected_sample sel) filtered_df in
  let filtered_df := filter_step Method (selected_method sel) filtered_df in
  filtered_df.

(** ** NumPy's [argsort(kind="quicksort")]

    The script sorts twice, and never names a sorting algorithm:
    [filtered_df.sort_values(by=sort_column)] on line 89, and the
    [sort_values(ascending=False)] inside [value_counts()] on lines 129
    to 144.  Both leave [kind] at its default ["quicksort"], for which
    pandas promises a sorted rearrangement and no stability; which order
    rows with equal keys come out in is decided by the installed pandas
    and NumPy, not by the script.

    The model follows pandas 2 with NumPy's introsort.  pandas 2 reads
    text as object columns and sorts them through
    [pandas.core.sorting.nargsort] and NumPy's [argsort], which for
    objects is the introsort [npy_aquicksort] of [npysort/quicksort]: it
    partitions segments of more than 16 elements ([SMALL_QUICKSORT] is
    15, and the test is on the distance of the last element from the
    first) around the median of three, sorts the others by insertion,
    and falls back to [npy_aheapsort] once the partitioning depth exceeds
    twice the binary logarithm of the length.  For the integer counts of
    [value_counts] NumPy uses the same introsort where it has no
    vectorised [argsort] for the processor, and a vectorised one, with
    another order of equal counts, where it has.  pandas 3 reads text as
    its string dtype, which this introsort does not sort.

    So the order of equal keys that the model computes is that of one of
    the environments the script runs in.  What is stated below for every
    table uses only that the result is sorted and a rearrangement, except
    where the statement names the bound of the insertion sort.  The model
    sorts the elements of a segment under [lt a b], the C test
    [cmp(a, b) < 0]; the explicit stack of the C loop is the recursion on
    the two segments that a partition leaves. *)

Module Npy.

(** What the sort expects of the comparison of a dtype: [lt] is a strict
    weak order (strings by code point, integers by value). *)
Class WeakOrder {A : Type} (lt : A → A → bool) : Prop := {
  lt_irrefl x : lt x x = false;
  lt_trans x y z : lt x y = true → lt y z = true → lt x z = true;
  nlt_trans x y z : lt x y = false → lt y z = false → lt x z = false
}.

(** [x] is not after [y]. *)
Definition le {A : Type} (lt : A → A → bool) (x y : A) : Prop := lt y x = false.

(** [x] and [y] compare equal. *)
Definition tied {A : Type} (lt : A → A → bool) (x y : A) : bool :=
  negb (lt x y) && negb (lt y x).

Section Sort.
Context {A : Type} (lt : A → A → bool).

(** [cmp(a[i], a[j]) < 0] *)
Definition lt_at (a : list A) (i j : nat) : bool :=
  match a !! i, a !! j with
  | Some x, Some y => lt x y
  | _, _ => false
  end.

(** [INTP_SWAP(a[i], a[j])] *)
Definition swap (i j : nat) (a : list A) : list A :=
  match a !! i, a !! j with
  | Some x, Some y => <[i := y]> (<[j := x]> a)
  | _, _ => a
  end.

(** *** Insertion sort *)

(** The inner loop of the insertion sort, which moves the elements
    greater than [vi] one place up; the sorted prefix is held from
    [pk] down to [pl]. *)
Fixpoint shift_down (vi : A) (below : list A) : list A :=
  match below with
  | y :: rest => if lt vi y then y :: shift_down vi rest else vi :: below
  | [] => [vi]
  end.

Definition insertion_sort (seg : list A) : list A :=
  reverse (foldl (λ below vi, shift_down vi below) [] seg).

(** *** Heapsort ([npy_aheapsort]); [a[k]] of the C code, which is
    one-based, is [a !! (k - 1)]. *)

Fixpoint sift (fuel : nat) (a : list A) (n : nat) (tmp : A) (i j : nat)
  : list A :=
  match fuel with
  | 0 => <[i - 1 := tmp]> a
  | S fuel' =>
      if j <=? n then
        let j := if (j <? n) && lt_at a (j - 1) j then S j else j in
        match a !! (j - 1) with
        | Some aj =>
            if lt tmp aj then sift fuel' (<[i - 1 := aj]> a) n tmp j (j + j)
            else <[i - 1 := tmp]> a
        | None => <[i - 1 := tmp]> a
        end
      else <[i - 1 := tmp]> a
  end.

(** [for (l = n >> 1; l > 0; --l)] *)
Fixpoint heapify (l : nat) (n : nat) (a : list A) : list A :=
  match l with
  | 0 => a
  | S l' =>
      match a !! l' with
      | Some tmp => heapify l' n (sift n a n tmp l (l + l))
      | None => a
      end
  end.

(** [for (; n > 1;)] *)
Fixpoint extract (n : nat) (a : list A) : list A :=
  match n with
  | S (S _ as n') =>
      match a !! n', a !! 0 with
      | Some tmp, Some top => extract n' (sift n' (<[n' := top]> a) n' tmp 1 2)
      | _, _ => a
      end
  | _ => a
  end.

Definition aheapsort (a : list A) : list A :=
  let n := length a in
  extract n (heapify (n / 2) n a).

(** *** The quicksort partition *)

Definition median3 (m r : nat) (a : list A) : list A :=
  let a := if lt_at a m 0 then swap m 0 a else a in
  let a := if lt_at a r m then swap r m a else a in
  let a := if lt_at a m 0 then swap m 0 a else a in
  a.

Fixpoint count_while (P : A → bool) (l : list A) : nat :=
  match l with
  | x :: l' => if P x then S (count_while P l') else 0
  | [] => 0
  end.

(** [do ++pi while cmp(a[pi], vp) < 0] *)
Definition scan_up (a : list A) (vp : A) (i : nat) : nat :=
  S i + count_while (λ x, lt x vp) (drop (S i) a).

(** [do --pj while cmp(vp, a[pj]) < 0] *)
Definition scan_down (a : list A) (vp : A) (j : nat) : nat :=
  j - 1 - count_while (λ x, lt vp x) (reverse (take j a)).

(** The [for (;;)] loop of the partition. *)
Fixpoint hoare (fuel : nat) (a : list A) (vp : A) (i j : nat)
  : list A * nat :=
  match fuel with
  | 0 => (a, i)
  | S fuel' =>
      let i := scan_up a vp i in
      let j := scan_down a vp j in
      if j <=? i then (a, i) else hoare fuel' (swap i j a) vp i j
  end.

(** One partition of a segment; the pivot ends at the returned position. *)
Definition partition (a : list A) : list A * nat :=
  let r := length a - 1 in
  let m := r / 2 in
  let a := median3 m r a in
  match a !! m with
  | Some vp =>
      let a := swap m (r - 1) a in
      let '(a, i) := hoare (length a) a vp 0 (r - 1) in
      (swap i (r - 1) a, i)
  | None => (a, 0)
  end.

Definition SMALL_QUICKSORT : nat := 15.

(** The main loop.  [popped] tells whether the segment comes from the
    stack, where the depth is checked, or is the smaller side that the
    inner loop goes on with. *)
Fixpoint aquicksort_loop (fuel : nat) (popped : bool) (cdepth : Z)
    (seg : list A) : list A :=
  match fuel with
  | 0 => seg
  | S fuel' =>
      if popped && (cdepth <? 0)%Z then aheapsort seg
      else if SMALL_QUICKSORT <? length seg - 1 then
        let '(a, i) := partition seg in
        let left_smaller := i <? length seg - 1 - i in
        aquicksort_loop fuel' (negb left_smaller) (cdepth - 1) (take i a)
          ++ option_list (a !! i)
          ++ aquicksort_loop fuel' left_smaller (cdepth - 1) (drop (S i) a)
      else insertion_sort seg
  end.

(** [npy_get_msb(n) * 2] *)
Definition initial_depth (n : nat) : Z := 2 * Z.of_nat (Nat.log2 n).

Definition aquicksort (a : list A) : list A :=
  aquicksort_loop (S (length a)) true (initial_depth (length a)) a.

(** *** Invariants of the loops *)

(** Inside the partition loop: nothing after the pivot up to [i],
    nothing before it from [j] on. *)
Definition hoare_inv (a : list A) (vp : A) (i j : nat) : Prop :=
  i < j ∧ j < length a ∧
  (∀ k x, k ≤ i → a !! k = Some x → lt vp x = false) ∧
  (∀ k x, j ≤ k → a !! k = Some x → lt x vp = false).

(** What one partition leaves: the pivot at [p], nothing after it
    before [p], nothing before it after [p]. *)
Definition partitioned (a : list A) (p : nat) : Prop :=
  ∃ pivot, a !! p = Some pivot ∧
    Forall (λ x, le lt x pivot) (take p a) ∧
    Forall (λ x, le lt pivot x) (drop (S p) a).

(** Node [c] holds nothing greater than node [k] (nodes count from one). *)
Definition node_le (b : list A) (c k : nat) : Prop :=
  ∀ x y, b !! (c - 1) = Some x → b !! (k - 1) = Some y → le lt x y.

Definition child (c k : nat) : Prop := c = k + k ∨ c = S (k + k).

(** The nodes [l] to [n] form a heap. *)
Definition heap (b : list A) (l n : nat) : Prop :=
  ∀ k c, l ≤ k → c ≤ n → child c k → node_le b c k.

(** A heap but for node [i], which may be less than its children. *)
Definition sift_inv (b : list A) (n l i : nat) : Prop :=
  (∀ k c, l ≤ k → k ≠ i → c ≤ n → child c k → node_le b c k) ∧
  (∀ p c, l ≤ p → child i p → c ≤ n → child c i → node_le b c p).

End Sort.

(** The positions, from [s] on, and the keys of the items that are
    present ([idx[~mask]] with [items[~mask]]), and the positions of the
    missing ones ([np.nonzero(mask)]). *)
Definition present {K} (s : nat) (items : list (option K)) : list (nat * K) :=
  omap (λ p : nat * option K, (p.1,.) <$> p.2) (zip (seq s (length items)) items).
Definition missing {K} (s : nat) (items : list (option K)) : list nat :=
  omap (λ p : nat * option K, match p.2 with None => Some p.1 | Some _ => None end)
    (zip (seq s (length items)) items).

(** The comparison of an argsort: positions are compared by their keys. *)
Definition by_key {K} (lt : K → K → bool) (x y : nat * K) : bool := lt x.2 y.2.

(** The sorted pairs, in the order [nargsort] was asked for: a descending
    sort reverses the items, sorts, and reverses the result. *)
Definition ordered {K} (lt : K → K → bool) (ascending : bool)
    (q : list (nat * K)) : list (nat * K) :=
  if ascending then aquicksort (by_key lt) q
  else reverse (aquicksort (by_key lt) (reverse q)).

(** [nargsort(items, kind="quicksort", ascending, na_position="last")]:
    the positions of the present items in sorted order, then those of the
    missing ones. *)
Definition nargsort {K} (lt : K → K → bool) (ascending : bool)
    (items : list (option K)) : list nat :=
  let nonnan := present 0 items in
  let nan_idx := missing 0 items in
  let indexer := (ordered lt ascending nonnan).*1 in
  indexer ++ nan_idx.

(** [obj.take(indexer)] *)
Definition take_rows {A} (l : list A) (indexer : list nat) : list A :=
  omap (λ i, l !! i) indexer.

(** The row a sorted pair stands for. *)
Definition row_at {K R} (T : list R) (p : nat * K) : option R := T !! p.1.

End Npy.

(** ** The sorter (lines 86 to 89) *)

(** The options of the "Sort results by" select box. *)
Inductive sort_option : Type :=
| Sort_None
| Sort_Microbe
| Sort_Condition
| Sort_Effect
| Sort_Sample_Type
| Sort_Host
| Sort_Method.

(** [df.sort_values(by=col)]: ascending, [kind="quicksort"], missing keys
    last; rows with equal keys in the order of the introsort. *)
Definition sort_values (by_ : row → cell) (df : table) : table :=
  Npy.take_rows df (Npy.nargsort String.ltb true (by_ <$> df)).

(** The column an option of the select box names; "None" names none. *)
Definition column_of (sort_column : sort_option) : option (row → cell) :=
  match sort_column with
  | Sort_None => None
  | Sort_Microbe => Some Microbe
  | Sort_Condition => Some Condition
  | Sort_Effect => Some Effect
  | Sort_Sample_Type => Some Sample_Type
  | Sort_Host => Some Host
  | Sort_Method => Some Method
  end.

(** [if sort_column != "None": df = df.sort_values(by=sort_column)] *)
Definition sort_dropdown (sort_column : sort_option) (filtered_df : table)
  : table :=
  match column_of sort_column with
  | None => filtered_df
  | Some col => sort_values col filtered_df
  end.

(** ** The aggregator (lines 129 to 146) *)

(** One step of the hash table behind [value_counts]: a value seen
    before has its count raised, a new one is appended. *)
Fixpoint bump (s : string) (counts : list (string * nat)) : list (string * nat) :=
  match counts with
  | [] => [(s, 1)]
  | (k, c) :: rest =>
      if decide (k = s) then (k, S c) :: rest else (k, c) :: bump s rest
  end.

(** The counts of the present values, in order of first appearance. *)
Definition count_table (col : list cell) : list (string * nat) :=
  foldl (λ counts c, from_option (λ s, bump s counts) counts c) [] col.

(** [col.value_counts()]: NaN is dropped and the counts are sorted in
    descending order by [Series.sort_values(ascending=False)]; equal
    counts in the order of the introsort, which is their order where
    NumPy has no vectorised [argsort]. *)
Definition value_counts (col : list cell) : list (string * nat) :=
  let counts := count_table col in
  Npy.take_rows counts (Npy.nargsort Nat.ltb false (Some <$> counts.*2)).

(** [s.head(n)] *)
Definition head {A} (n : nat) (l : list A) : list A := take n l.

Definition effect_counts (filtered_df : table) : list (string * nat) :=
  value_counts (Effect <$> filtered_df).
Definition condition_counts (filtered_df : table) : list (string * nat) :=
  head 10 (value_counts (Condition <$> filtered_df)).
Definition sample_counts (filtered_df : table) : list (string * nat) :=
  value_counts (Sample_Type <$> filtered_df).
Definition microbe_counts (filtered_df : table) : list (string * nat) :=
  head 10 (value_counts (Microbe <$> filtered_df)).

(** ** Rendering (lines 92 to 147) *)

(** A cell inside an f-string, and inside [to_html]. *)
Definition fstring_cell (c : cell) : string := default "nan" c.
Definition html_cell (c : cell) : string := default "NaN" c.

Definition quote : string := String (ascii_of_nat 34) EmptyString.

(** The anchor of line 94. *)
Definition study_link (r : row) : string :=
  "<a href=" +:+ quote +:+ fstring_cell (PubMed_Link r) +:+ quote
  +:+ " target=" +:+ quote +:+ "_blank" +:+ quote +:+ ">"
  +:+ fstring_cell (Study_Title r) +:+ "</a>".

Definition html_row (r : row * string) : list string :=
  [html_cell (Microbe r.1); html_cell (Condition r.1); html_cell (Effect r.1);
   html_cell (Sample_Type r.1); html_cell (Host r.1); html_cell (Method r.1);
   r.2].

(** Lines 92 to 147 on the filtered and sorted table. *)
Definition render (filtered_df : table) : script unit :=
  let linked := (λ r, (r, study_link r)) <$> filtered_df in
  emit (StTable (html_row <$> linked)) ;;
  emit (StDownloadFiltered "filtered_results.csv" linked) ;;
  if bool_decide (filtered_df = []) then mret tt
  else
    emit (StChart "Distribution by Effect" (effect_counts filtered_df)) ;;
    emit (StChart "Top 10 Conditions" (condition_counts filtered_df)) ;;
    emit (StChart "Sample Types" (sample_counts filtered_df)) ;;
    emit (StChart "Top 10 Microbes" (microbe_counts filtered_df)).

(** ** The whole script *)

Definition app (reference_df : table) (m : mode)
    (uploaded_file : option dataframe) (sel : selections)
    (sort_column : sort_option) : script unit :=
  working_df ← working_table reference_df m uploaded_file;
  let filtered_df := filter_logic working_df sel in
  let filtered_df := sort_dropdown sort_column filtered_df in
  render filtered_df.

(** * Vocabulary of the specification and sample data *)

(** ** The matching rule of the specification *)

(** A reference value matches a query when its lowering starts with the
    lowering of the query. *)
Definition prefix_match (ref q : string) : bool :=
  Py.startswith (Py.lower ref) (Py.lower q).

(** A row is selected by a query list when its microbe matches one of
    the queries. *)
Definition row_selected (queries : list string) (r : row) : bool :=
  from_option (λ ref, existsb (prefix_match ref) queries) false (Microbe r).

(** A query has a match when some reference microbe matches it. *)
Definition has_match (refs : list string) (q : string) : bool :=
  existsb (λ ref, prefix_match ref q) refs.

(** The reference table and the query of the first scenario. *)
Definition microbe_row (name : string) : row :=
  Row (Some name) NaN NaN NaN NaN NaN NaN NaN.
Definition scenario_reference : table :=
  [microbe_row "Escherichia coli"; microbe_row "Escherichia fergusonii";
   microbe_row "Bacteroides fragilis"].

(** One column constraint of the filter engine: an empty selection set
    does not constrain, another one wants the value of the row in it. *)
Definition constraint_met (selected : list string) (c : cell) : bool :=
  bool_decide (selected = []) || isin c selected.

(** The five constraints together. *)
Definition retained (sel : selections) (r : row) : bool :=
  constraint_met (selected_microbe sel) (Microbe r)
  && constraint_met (selected_condition sel) (Condition r)
  && constraint_met (selected_effect sel) (Effect r)
  && constraint_met (selected_sample sel) (Sample_Type r)
  && constraint_met (selected_method sel) (Method r).

(** Two selection maps constrain different columns when no column has a
    non-empty set in both. *)
Definition different_columns (S1 S2 : selections) : Prop :=
  (selected_microbe S1 = [] ∨ selected_microbe S2 = []) ∧
  (selected_condition S1 = [] ∨ selected_condition S2 = []) ∧
  (selected_effect S1 = [] ∨ selected_effect S2 = []) ∧
  (selected_sample S1 = [] ∨ selected_sample S2 = []) ∧
  (selected_method S1 = [] ∨ selected_method S2 = []).

(** The union of two selection maps, column by column. *)
Definition merge_selections (S1 S2 : selections) : selections :=
  {| selected_microbe := selected_microbe S1 ++ selected_microbe S2;
     selected_condition := selected_condition S1 ++ selected_condition S2;
     selected_effect := selected_effect S1 ++ selected_effect S2;
     selected_sample := selected_sample S1 ++ selected_sample S2;
     selected_method := selected_method S1 ++ selected_method S2 |}.

(** A small table with conditions and effects. *)
Definition study_row (microbe condition effect : string) : row :=
  Row (Some microbe) (Some condition) (Some effect) (Some "Faeces")
    (Some "Human") (Some "16S") (Some "A study") (Some "https://pubmed.example/1").
Definition sample_table : table :=
  [study_row "Escherichia coli" "Obesity" "Increase";
   study_row "Bacteroides fragilis" "Obesity" "Decrease";
   study_row "Escherichia coli" "Colitis" "Increase";
   study_row "Akkermansia muciniphila" "Obesity" "Decrease"].

(** A cell is not after another one in a sorted column: strings in
    code-point order, the missing ones last. *)
Definition cell_le (x y : cell) : Prop :=
  match x, y with
  | Some a, Some b => String.leb a b = true
  | _, None => True
  | None, Some _ => False
  end.

(** Eighteen studies of one condition, and eighteen conditions. *)
Definition eighteen_names : list string :=
  ["N00"; "N01"; "N02"; "N03"; "N04"; "N05"; "N06"; "N07"; "N08";
   "N09"; "N10"; "N11"; "N12"; "N13"; "N14"; "N15"; "N16"; "N17"].
Definition eighteen_microbes : table :=
  (λ name, study_row name "Obesity" "Increase") <$> eighteen_names.
Definition eighteen_conditions : table :=
  (λ name, study_row "Escherichia coli" name "Increase") <$> eighteen_names.

(** Seventeen studies of one condition. *)
Definition seventeen_microbes : table := take 17 eighteen_microbes.

(** The count a table of counts holds for a value. *)
Definition tally (s : string) (counts : list (string * nat)) : nat :=
  sum_list_with snd (filter (λ p, p.1 = s) counts).

(** The key [Series.sort_values] sorts the counts by. *)
Definition count_key (p : string * nat) : option nat := Some p.2.

(** An upload with one blank entry. *)
Definition blank_upload : dataframe :=
  [("Sample", [Some "s1"; Some "s2"]); ("Microbe", [Some "Nonexistent Genus"; Some "   "])].

(** An upload whose only column is not named Microbe. *)
Definition upload_without_microbe : dataframe :=
  [("Name", [Some "Escherichia"; Some "Bacteroides"])].

(** ** Outcomes of a run *)

(** The exception [cell_lower] raises on NaN. *)
Definition lower_error : exn :=
  AttributeError "'float' object has no attribute 'lower'".

(** The exception of the [.str] accessor on a column without strings. *)
Definition accessor_error : exn :=
  AttributeError "Can only use .str accessor with string values!".

(** The events that show results: the table, its download, the charts. *)
Definition shows_results (e : ui_event) : bool :=
  match e with
  | StTable _ | StDownloadFiltered _ _ | StChart _ _ => true
  | _ => false
  end.

(** What lines 43 to 48 show for a working table that is not empty. *)
Definition upload_notices (working_df : table) (matched_microbes : gset string)
    (unmatched : list cell) : list ui_event :=
  (if bool_decide (unmatched = []) then []
   else [StWarning (Py.str (length unmatched)
           +:+ " microbes not found in the reference dataset.");
         StDataframe "Unmatched Microbes" unmatched;
         StDownloadUnmatched "unmatched_microbes.csv" unmatched])
  ++ [StSuccess ("Matched " +:+ Py.str (size matched_microbes)
        +:+ " microbes → " +:+ Py.str (length working_df)
        +:+ " entries found.")].

(** The rows of the table with their anchors (line 93). *)
Definition linked (filtered_df : table) : list (row * string) :=
  (λ r, (r, study_link r)) <$> filtered_df.

(** The four charts of lines 126 to 147. *)
Definition charts (filtered_df : table) : list ui_event :=
  if bool_decide (filtered_df = []) then []
  else [StChart "Distribution by Effect" (effect_counts filtered_df);
        StChart "Top 10 Conditions" (condition_counts filtered_df);
        StChart "Sample Types" (sample_counts filtered_df);
        StChart "Top 10 Microbes" (microbe_counts filtered_df)].

(** * Properties *)

(** Rewrites the position of a lookup hypothesis into an equal one. *)
Ltac at_position H q :=
  match type of H with
  | _ !! ?p = _ => replace p with q in H by lia
  end.

(** ** Lemmas on [unique] *)

Lemma elem_of_unique_from {A} `{EqDecision A} (seen l : list A) (x : A) :
  x ∈ unique_from seen l ↔ x ∈ l ∧ x ∉ seen.
Proof.
  revert seen. induction l as [|y l IH]; intros seen; simpl.
  - set_solver.
  - destruct (decide (y ∈ seen)) as [Hin|Hnin].
    + rewrite IH. set_solver.
    + rewrite elem_of_cons, IH.
      destruct (decide (x = y)) as [->|Hne]; set_solver.
Qed.

Lemma elem_of_unique {A} `{EqDecision A} (l : list A) (x : A) :
  x ∈ unique l ↔ x ∈ l.
Proof. unfold unique. rewrite elem_of_unique_from. set_solver. Qed.

Lemma unique_from_fmap_Some (seen l : list string) :
  unique_from (Some <$> seen) (Some <$> l) = Some <$> unique_from seen l.
Proof.
  revert seen. induction l as [|y l IH]; intros seen; simpl; [done|].
  destruct (decide (Some y ∈ Some <$> seen)) as [Hin|Hnin];
    destruct (decide (y ∈ seen)) as [Hin'|Hnin'].
  - apply IH.
  - exfalso. apply Hnin'. apply list_elem_of_fmap in Hin as (z & [= <-] & Hz). done.
  - exfalso. apply Hnin. by apply list_elem_of_fmap_2.
  - simpl. f_equal. apply (IH (y :: seen)).
Qed.

Lemma unique_fmap_Some (l : list string) :
  unique (Some <$> l) = Some <$> unique l.
Proof. apply (unique_from_fmap_Some []). Qed.

(** A column without NaN is the image of a list of strings. *)
Lemma all_present_fmap (col : list cell) :
  Forall is_Some col → ∃ l : list string, col = Some <$> l.
Proof.
  induction 1 as [|c col [s ->] _ [l ->]].
  - by exists [].
  - by exists (s :: l).
Qed.

(** ** The matcher on data without NaN *)

Lemma any_query_present (ref : string) (queries : list string) :
  any_query (Some ref) (Some <$> queries) = Ok (existsb (prefix_match ref) queries).
Proof.
  induction queries as [|q qs IH]; csimpl; [done|].
  unfold prefix_match at 1. destruct (Py.startswith _ _); csimpl; [done|apply IH].
Qed.

Lemma working_rows_present (reference_df : table) (queries : list string) :
  Forall (λ r, is_Some (Microbe r)) reference_df →
  working_rows reference_df (Some <$> queries)
  = Ok (filter (λ r, row_selected queries r) reference_df).
Proof.
  induction 1 as [|r rest [ref Href] _ IH]; csimpl; [done|].
  assert (Hsel : row_selected queries r = existsb (prefix_match ref) queries)
    by (unfold row_selected; by rewrite Href).
  rewrite Href, any_query_present. csimpl. rewrite IH. csimpl.
  rewrite <- Hsel. destruct (row_selected queries r) eqn:E.
  - rewrite filter_cons_True; [done|by rewrite E].
  - rewrite filter_cons_False; [done|rewrite E; csimpl; tauto].
Qed.

Lemma matched_for_present (q : string) (refs : list string) :
  matched_for (Some q) (Some <$> refs)
  = Ok (filter (λ ref, prefix_match ref q) refs).
Proof.
  induction refs as [|ref refs IH]; csimpl; [done|].
  rewrite IH. csimpl. unfold prefix_match at 2.
  destruct (Py.startswith _ _) eqn:E.
  - rewrite filter_cons_True; [done|]. unfold prefix_match. by rewrite E.
  - rewrite filter_cons_False; [done|]. unfold prefix_match. rewrite E; csimpl; tauto.
Qed.

Lemma matched_loop_present (queries refs : list string) (acc : gset string) :
  ∃ matched, matched_loop (Some <$> queries) (Some <$> refs) acc = Ok matched ∧
    ∀ v, v ∈ matched ↔
      v ∈ acc ∨ (v ∈ refs ∧ ∃ q, q ∈ queries ∧ prefix_match v q = true).
Proof.
  revert acc. induction queries as [|q qs IH]; intros acc; csimpl.
  - exists acc. split; [done|]. set_solver.
  - rewrite matched_for_present. csimpl.
    destruct (IH (acc ∪ list_to_set (filter (λ ref, prefix_match ref q) refs)))
      as (matched & -> & Hm).
    exists matched. split; [done|]. intros v. rewrite Hm.
    rewrite elem_of_union, elem_of_list_to_set, list_elem_of_filter.
    split.
    + intros [[?|[Hp ?]]|(? & q' & ? & ?)]; [by left|right..].
      * split; [done|]. exists q. split; [left|]. by apply Is_true_true.
      * split; [done|]. exists q'. split; [by right|done].
    + intros [?|(? & q' & Hq' & Hp)]; [by left; left|].
      apply elem_of_cons in Hq' as [->|?].
      * left; right. split; [by apply Is_true_true|done].
      * right. split; [done|]. by exists q'.
Qed.

Lemma any_reference_present (q : string) (refs : list string) :
  any_reference (Some q) (Some <$> refs) = Ok (has_match refs q).
Proof.
  induction refs as [|ref refs IH]; csimpl; [done|].
  unfold prefix_match at 1. destruct (Py.startswith _ _); csimpl; [done|apply IH].
Qed.

Lemma unmatched_of_present (queries refs : list string) :
  unmatched_of (Some <$> queries) (Some <$> refs)
  = Ok (Some <$> filter (λ q, negb (has_match refs q)) queries).
Proof.
  induction queries as [|q qs IH]; csimpl; [done|].
  rewrite any_reference_present. csimpl. rewrite IH. csimpl.
  destruct (has_match refs q) eqn:E.
  - rewrite filter_cons_False; [done|]. rewrite E; csimpl; tauto.
  - rewrite filter_cons_True; [done|]. by rewrite E.
Qed.

Lemma matcher_present (reference_df : table) (queries refs : list string) :
  Microbe <$> reference_df = Some <$> refs →
  ∃ matched,
    matcher reference_df (Some <$> queries)
    = Ok (filter (λ r, row_selected queries r) reference_df, matched,
          Some <$> filter (λ q, negb (has_match refs q)) queries) ∧
    ∀ v, v ∈ matched ↔ v ∈ refs ∧ ∃ q, q ∈ queries ∧ prefix_match v q = true.
Proof.
  intros Hrefs. unfold matcher.
  rewrite working_rows_present; csimpl.
  - rewrite Hrefs, unique_fmap_Some.
    destruct (matched_loop_present queries (unique refs) ∅) as (matched & -> & Hm).
    csimpl. rewrite unmatched_of_present. csimpl.
    exists matched. split; [done|]. intros v. rewrite Hm, elem_of_unique. set_solver.
  - apply Forall_forall. intros r Hr.
    assert (Microbe r ∈ Some <$> refs) as Hin
      by (rewrite <- Hrefs; by apply list_elem_of_fmap_2).
    apply list_elem_of_fmap in Hin as (ref & -> & _). by eexists.
Qed.

Lemma row_selected_spec (queries : list string) (r : row) :
  row_selected queries r = true ↔
  ∃ ref q, Microbe r = Some ref ∧ q ∈ queries ∧
           Py.startswith (Py.lower ref) (Py.lower q) = true.
Proof.
  unfold row_selected. destruct (Microbe r) as [ref|]; csimpl.
  - rewrite existsb_exists. split.
    + intros (q & Hq%list_elem_of_In & Hm). by exists ref, q.
    + intros (ref' & q & [= <-] & Hq%list_elem_of_In & Hm). by exists q.
  - split; [done|]. by intros (? & ? & ? & _).
Qed.

Lemma has_match_spec (refs : list string) (q : string) :
  has_match refs q = true ↔
  ∃ ref, ref ∈ refs ∧ Py.startswith (Py.lower ref) (Py.lower q) = true.
Proof.
  unfold has_match. rewrite existsb_exists.
  split; intros (ref & Href & Hm); exists ref; by apply list_elem_of_In in Href.
Qed.

(** C1.  Matcher membership rule: on a reference table whose Microbe
    cells are all present, the matcher returns for every query list; a
    reference row is in the working table exactly when the lowering of
    its microbe starts with the lowering of some query (the working table
    is the reference table filtered by that test), and the matched values
    are exactly the reference microbes that match at least one query. *)
Theorem matcher_membership (reference_df : table) (queries : list string) :
  Forall (λ r, is_Some (Microbe r)) reference_df →
  ∃ working matchedValues unmatched,
    matcher reference_df (Some <$> queries)
    = Ok (working, matchedValues, unmatched) ∧
    working = filter (λ r, row_selected queries r) reference_df ∧
    (∀ r, r ∈ working ↔
       r ∈ reference_df ∧
       ∃ ref q, Microbe r = Some ref ∧ q ∈ queries ∧
                Py.startswith (Py.lower ref) (Py.lower q) = true) ∧
    (∀ v : string, v ∈ matchedValues ↔
       ∃ r q, r ∈ reference_df ∧ Microbe r = Some v ∧ q ∈ queries ∧
              Py.startswith (Py.lower v) (Py.lower q) = true).
Proof.
  intros Hall.
  destruct (all_present_fmap (Microbe <$> reference_df)) as [refs Hrefs].
  { by apply Forall_fmap. }
  destruct (matcher_present reference_df queries refs Hrefs) as (matched & Hm & Hv).
  eexists _, matched, _. split; [exact Hm|]. split; [done|]. split.
  - intros r. rewrite list_elem_of_filter, <- row_selected_spec.
    rewrite Is_true_true. tauto.
  - intros v. rewrite Hv. split.
    + intros (Hin & q & Hq & Hp).
      assert (Some v ∈ Microbe <$> reference_df) as Hin'
        by (rewrite Hrefs; by apply list_elem_of_fmap_2).
      apply list_elem_of_fmap in Hin' as (r & Hr & Hr'). by exists r, q.
    + intros (r & q & Hr & Hv' & Hq & Hp). split; [|by exists q].
      assert (Some v ∈ Some <$> refs) as Hin
        by (rewrite <- Hrefs, <- Hv'; by apply list_elem_of_fmap_2).
      by apply list_elem_of_fmap in Hin as (? & [= <-] & ?).
Qed.

Lemma matcher_membership_witness :
  Forall (λ r, is_Some (Microbe r)) scenario_reference ∧
  ∃ working matchedValues unmatched,
    matcher scenario_reference (Some <$> ["escher"])
    = Ok (working, matchedValues, unmatched) ∧
    working = filter (λ r, row_selected ["escher"] r) scenario_reference ∧
    (∀ r, r ∈ working ↔
       r ∈ scenario_reference ∧
       ∃ ref q, Microbe r = Some ref ∧ q ∈ ["escher"] ∧
                Py.startswith (Py.lower ref) (Py.lower q) = true) ∧
    (∀ v : string, v ∈ matchedValues ↔
       ∃ r q, r ∈ scenario_reference ∧ Microbe r = Some v ∧ q ∈ ["escher"] ∧
              Py.startswith (Py.lower v) (Py.lower q) = true).
Proof.
  assert (H : Forall (λ r, is_Some (Microbe r)) scenario_reference)
    by (repeat constructor; by eexists).
  split; [exact H|]. exact (matcher_membership scenario_reference ["escher"] H).
Defined.

(** C4.  Matcher partition: on a reference table whose Microbe cells are
    all present, the unmatched list is the query list with the queries
    that have a match removed, so it keeps the order and the repetitions
    of the queries; every query is either unmatched or has a match, and
    never both. *)
Theorem matcher_partition (reference_df : table) (queries refs : list string) :
  Microbe <$> reference_df = Some <$> refs →
  ∃ working matchedValues unmatched,
    matcher reference_df (Some <$> queries)
    = Ok (working, matchedValues, Some <$> unmatched) ∧
    unmatched = filter (λ q, negb (has_match refs q)) queries ∧
    unmatched `sublist_of` queries ∧
    (∀ q, q ∈ queries ↔
       q ∈ unmatched ∨
       (q ∈ queries ∧ ∃ ref, ref ∈ refs ∧
          Py.startswith (Py.lower ref) (Py.lower q) = true)) ∧
    (∀ q, q ∈ unmatched →
       ¬ ∃ ref, ref ∈ refs ∧ Py.startswith (Py.lower ref) (Py.lower q) = true).
Proof.
  intros Hrefs.
  destruct (matcher_present reference_df queries refs Hrefs) as (matched & Hm & _).
  eexists _, matched, _. split; [exact Hm|]. split; [done|].
  split; [apply sublist_filter|]. split.
  - intros q. rewrite list_elem_of_filter, <- has_match_spec.
    destruct (has_match refs q); csimpl; naive_solver.
  - intros q. rewrite list_elem_of_filter, <- has_match_spec.
    destruct (has_match refs q); csimpl; naive_solver.
Qed.

Lemma matcher_partition_witness :
  Microbe <$> scenario_reference
  = Some <$> ["Escherichia coli"; "Escherichia fergusonii"; "Bacteroides fragilis"] ∧
  ∃ working matchedValues unmatched,
    matcher scenario_reference (Some <$> ["Nonexistent Genus"; "escher"])
    = Ok (working, matchedValues, Some <$> unmatched) ∧
    unmatched = ["Nonexistent Genus"].
Proof.
  split; [reflexivity|].
  destruct (matcher_partition scenario_reference ["Nonexistent Genus"; "escher"]
              ["Escherichia coli"; "Escherichia fergusonii"; "Bacteroides fragilis"]
              eq_refl) as (w & m & u & Hm & Hu & _).
  exists w, m, u. split; [exact Hm|]. rewrite Hu. reflexivity.
Defined.

(** ** The script monad *)

Lemma script_bind_inr {A B} (m : script A) (f : A → script B) log (b : B) :
  m ≫= f = (log, inr b) →
  ∃ log1 log2 a, m = (log1, inr a) ∧ f a = (log2, inr b) ∧ log = log1 ++ log2.
Proof.
  destruct m as [log1 [h|a]]; unfold mbind, script_bind; [done|].
  destruct (f a) as [log2 r] eqn:Hf. intros [= <- ->]. by exists log1, log2, a.
Qed.

Lemma lift_inr {A} (r : result A) log (a : A) :
  lift r = (log, inr a) → r = Ok a ∧ log = [].
Proof. destruct r; csimpl; by intros [= <- <-]. Qed.

(** ** Reading the uploaded frame *)

Lemma getitem_setitem (df : dataframe) (name : string) (col : list cell) :
  getitem (setitem df name col) name = Ok col.
Proof.
  induction df as [|[n c] df IH]; csimpl.
  - by rewrite decide_True.
  - destruct (decide (n = name)) as [->|Hne]; csimpl.
    + by rewrite decide_True.
    + by rewrite decide_False.
Qed.

Lemma has_column_setitem (df : dataframe) (name : string) (col : list cell) :
  has_column (setitem df name col) name = true.
Proof.
  unfold has_column. apply bool_decide_eq_true.
  induction df as [|[n c] df IH]; csimpl.
  - set_solver.
  - destruct (decide (n = name)) as [->|Hne]; csimpl; set_solver.
Qed.

Lemma getitem_missing (df : dataframe) (name : string) :
  has_column df name = false → getitem df name = Raise (KeyError name).
Proof.
  unfold has_column. intros Hcol%bool_decide_eq_false.
  induction df as [|[n c] df IH]; csimpl; [done|].
  rewrite decide_False by set_solver. apply IH. set_solver.
Qed.

Lemma read_queries_ok (input_df : dataframe) (col stripped : list cell) :
  getitem input_df "Microbe" = Ok col →
  str_strip col = Ok stripped →
  read_queries input_df = ([], inr (unique stripped)).
Proof.
  intros Hcol Hstrip. unfold read_queries.
  rewrite Hcol. csimpl. rewrite Hstrip. csimpl.
  by rewrite has_column_setitem, getitem_setitem.
Qed.

Lemma read_queries_missing (input_df : dataframe) :
  has_column input_df "Microbe" = false →
  read_queries input_df = ([], inl (Raised (KeyError "Microbe"))).
Proof.
  intros Hcol. unfold read_queries. by rewrite (getitem_missing _ _ Hcol).
Qed.

(** The schema check of lines 23 to 25 comes after the column was read
    and written back, so its message is never shown. *)
Lemma schema_message_unreachable (input_df : dataframe) :
  StError schema_message ∉ (read_queries input_df).1.
Proof.
  unfold read_queries.
  destruct (getitem input_df "Microbe") as [col|e]; csimpl; [|set_solver].
  destruct (str_strip col) as [stripped|e]; csimpl; [|set_solver].
  rewrite has_column_setitem, getitem_setitem. csimpl. set_solver.
Qed.

Lemma str_strip_present (raw : list string) :
  str_strip (Some <$> raw) = Ok (Some <$> (Py.strip <$> raw)).
Proof.
  assert (strip_cell <$> (Some <$> raw) = Some <$> (Py.strip <$> raw)) as <-
    by (by rewrite <- !list_fmap_compose).
  by destruct raw as [|s raw].
Qed.

(** ** The empty query *)

Lemma prefix_match_empty (ref : string) : prefix_match ref "" = true.
Proof. unfold prefix_match, Py.startswith. csimpl. by destruct (Py.lower ref). Qed.

Lemma empty_query_selects_all (reference_df : table) (queries : list string) :
  Forall (λ r, is_Some (Microbe r)) reference_df →
  "" ∈ queries →
  filter (λ r, row_selected queries r) reference_df = reference_df.
Proof.
  intros Hall Hin. induction Hall as [|r rest [ref Href] _ IH]; [done|].
  rewrite filter_cons_True, IH; [done|].
  apply Is_true_true, row_selected_spec. exists ref, "".
  split; [done|]. split; [done|]. apply prefix_match_empty.
Qed.

(** C9.  Blank-query behaviour: when the uploaded Microbe column holds a
    blank string (empty once stripped) among its strings, the query list
    read from it contains the empty string and the working table is the
    whole reference table, whatever the other queries are. *)
Theorem blank_query_selects_all (reference_df : table) (input_df : dataframe)
    (raw : list string) (blank : string) :
  Forall (λ r, is_Some (Microbe r)) reference_df →
  getitem input_df "Microbe" = Ok (Some <$> raw) →
  blank ∈ raw →
  Py.strip blank = "" →
  ∃ uploaded_microbes matchedValues unmatched,
    read_queries input_df = ([], inr uploaded_microbes) ∧
    Some "" ∈ uploaded_microbes ∧
    matcher reference_df uploaded_microbes
    = Ok (reference_df, matchedValues, unmatched).
Proof.
  intros Hall Hcol Hin Hblank.
  pose proof (read_queries_ok _ _ _ Hcol (str_strip_present raw)) as Hread.
  rewrite unique_fmap_Some in Hread.
  assert ("" ∈ unique (Py.strip <$> raw)) as Hempty.
  { apply elem_of_unique. rewrite <- Hblank. by apply list_elem_of_fmap_2. }
  destruct (all_present_fmap (Microbe <$> reference_df)) as [refs Hrefs].
  { by apply Forall_fmap. }
  destruct (matcher_present reference_df (unique (Py.strip <$> raw)) refs Hrefs)
    as (matched & Hm & _).
  rewrite (empty_query_selects_all _ _ Hall Hempty) in Hm.
  eexists _, matched, _. split; [exact Hread|]. split; [|exact Hm].
  by apply list_elem_of_fmap_2.
Qed.

Lemma blank_query_selects_all_witness :
  Forall (λ r, is_Some (Microbe r)) scenario_reference ∧
  getitem blank_upload "Microbe" = Ok (Some <$> ["Nonexistent Genus"; "   "]) ∧
  "   " ∈ ["Nonexistent Genus"; "   "] ∧
  Py.strip "   " = "" ∧
  ∃ uploaded_microbes matchedValues unmatched,
    read_queries blank_upload = ([], inr uploaded_microbes) ∧
    Some "" ∈ uploaded_microbes ∧
    matcher scenario_reference uploaded_microbes
    = Ok (scenario_reference, matchedValues, unmatched).
Proof.
  assert (H1 : Forall (λ r, is_Some (Microbe r)) scenario_reference)
    by (repeat constructor; by eexists).
  assert (H2 : getitem blank_upload "Microbe"
               = Ok (Some <$> ["Nonexistent Genus"; "   "])) by reflexivity.
  assert (H3 : "   " ∈ ["Nonexistent Genus"; "   "]) by (right; left).
  assert (H4 : Py.strip "   " = "") by reflexivity.
  repeat (split; [assumption|]).
  exact (blank_query_selects_all scenario_reference blank_upload
           ["Nonexistent Genus"; "   "] "   " H1 H2 H3 H4).
Defined.

(** ** Order of the rows *)

Lemma working_rows_sublist (reference_df : table) (uploaded_microbes : list cell)
    (working_df : table) :
  working_rows reference_df uploaded_microbes = Ok working_df →
  working_df `sublist_of` reference_df.
Proof.
  revert working_df. induction reference_df as [|r rest IH]; intros working_df; csimpl.
  - intros [= <-]. constructor.
  - destruct (any_query _ _) as [b|e]; csimpl; [|done].
    destruct (working_rows rest _) as [rest'|e]; csimpl; [|done].
    intros [= <-]. specialize (IH rest' eq_refl).
    destruct b; by constructor.
Qed.

Lemma matcher_working (reference_df : table) (uploaded_microbes : list cell)
    working_df matched_microbes unmatched :
  matcher reference_df uploaded_microbes
  = Ok (working_df, matched_microbes, unmatched) →
  working_rows reference_df uploaded_microbes = Ok working_df.
Proof.
  unfold matcher. destruct (working_rows _ _) as [w|e]; csimpl; [|done].
  destruct (matched_loop _ _ _) as [m|e]; csimpl; [|done].
  destruct (unmatched_of _ _) as [u|e]; csimpl; [|done].
  by intros [= <- _ _].
Qed.

Lemma upload_branch_working (reference_df : table) (input_df : dataframe)
    log (working_df : table) :
  upload_branch reference_df (Some input_df) = (log, inr working_df) →
  ∃ uploaded_microbes,
    working_rows reference_df uploaded_microbes = Ok working_df.
Proof.
  unfold upload_branch.
  intros (log1 & log2 & qs & _ & Hrest & _)%script_bind_inr.
  apply script_bind_inr in Hrest as (log3 & log4 & [[w m] u] & Hm & Hrest & _).
  apply lift_inr in Hm as [Hm _]. exists qs.
  apply matcher_working in Hm. rewrite Hm. f_equal.
  apply script_bind_inr in Hrest as (? & ? & [] & _ & Hrest & _).
  apply script_bind_inr in Hrest as (? & ? & [] & _ & Hrest & _).
  apply script_bind_inr in Hrest as (? & ? & [] & _ & Hrest & _).
  by injection Hrest as _ <-.
Qed.

Lemma filter_step_sublist (col : row → cell) (selected : list string) (T : table) :
  filter_step col selected T `sublist_of` T.
Proof. destruct selected; [done|apply sublist_filter]. Qed.

(** C10.  The filter engine returns a subsequence of its input table, and
    the working table that either mode of the script produces is a
    subsequence of the reference table: rows are kept whole and in their
    relative order. *)
Theorem rows_kept_in_order (T reference_df : table) (sel : selections)
    (m : mode) (uploaded_file : option dataframe) log (working_df : table) :
  working_table reference_df m uploaded_file = (log, inr working_df) →
  filter_logic T sel `sublist_of` T ∧ working_df `sublist_of` reference_df.
Proof.
  intros Hw. split.
  - unfold filter_logic.
    repeat (etrans; [apply filter_step_sublist|]). done.
  - destruct m; csimpl in Hw.
    + destruct uploaded_file as [input_df|]; [|done].
      apply upload_branch_working in Hw as [qs Hw].
      by eapply working_rows_sublist.
    + by injection Hw as _ <-.
Qed.

Lemma rows_kept_in_order_witness :
  working_table scenario_reference Upload_CSV_of_Microbes
    (Some [("Microbe", [Some "escher"])])
  = ([StSuccess "Matched 2 microbes → 2 entries found."],
     inr (take 2 scenario_reference)) ∧
  filter_logic scenario_reference
    (Selections ["Escherichia coli"; "Bacteroides fragilis"] [] [] [] [])
    `sublist_of` scenario_reference ∧
  take 2 scenario_reference `sublist_of` scenario_reference.
Proof.
  assert (H : working_table scenario_reference Upload_CSV_of_Microbes
                (Some [("Microbe", [Some "escher"])])
              = ([StSuccess "Matched 2 microbes → 2 entries found."],
                 inr (take 2 scenario_reference))) by (vm_compute; reflexivity).
  split; [exact H|].
  exact (rows_kept_in_order scenario_reference scenario_reference
           (Selections ["Escherichia coli"; "Bacteroides fragilis"] [] [] [] [])
           Upload_CSV_of_Microbes (Some [("Microbe", [Some "escher"])]) _ _ H).
Defined.

(** ** The two blocking errors *)

Lemma any_query_false (ref : cell) (uploaded_microbes : list cell) :
  any_query ref uploaded_microbes = Ok false →
  uploaded_microbes = [] ∨ (is_Some ref ∧ Forall is_Some uploaded_microbes).
Proof.
  induction uploaded_microbes as [|q qs IH]; csimpl; [by left|].
  destruct ref as [r|]; csimpl; [|done].
  destruct q as [p|]; csimpl; [|done].
  destruct (Py.startswith _ _); [done|]. intros Hq. right.
  split; [by eexists|]. constructor; [by eexists|].
  destruct (IH Hq) as [->|[_ ?]]; [constructor|done].
Qed.

Lemma working_rows_empty (reference_df : table) (uploaded_microbes : list cell) :
  working_rows reference_df uploaded_microbes = Ok [] →
  reference_df = [] ∨ uploaded_microbes = [] ∨
  (Forall (λ r, is_Some (Microbe r)) reference_df ∧
   Forall is_Some uploaded_microbes).
Proof.
  destruct (decide (uploaded_microbes = [])) as [->|Hne]; [by right; left|].
  induction reference_df as [|r rest IH]; csimpl; [by left|].
  destruct (any_query _ _) as [b|e] eqn:Hq; csimpl; [|done].
  destruct (working_rows rest _) as [rest'|e]; csimpl; [|done].
  destruct b; [done|]. intros [= ->]. right; right.
  destruct (any_query_false _ _ Hq) as [?|[Hr Hqs]]; [done|].
  split; [|done]. constructor; [done|].
  destruct (IH eq_refl) as [->|[?|[? _]]]; [constructor|done..].
Qed.

Lemma matched_loop_total (queries refs : list cell) (acc : gset string) :
  refs = [] ∨ queries = [] ∨ (Forall is_Some refs ∧ Forall is_Some queries) →
  ∃ matched, matched_loop queries refs acc = Ok matched.
Proof.
  intros [->|[->|[Hrefs Hqs]]].
  - revert acc. induction queries as [|q qs IH]; intros acc; csimpl; eauto.
  - csimpl. eauto.
  - apply all_present_fmap in Hrefs as [rs ->].
    apply all_present_fmap in Hqs as [ps ->].
    destruct (matched_loop_present ps rs acc) as (matched & -> & _). eauto.
Qed.

Lemma unmatched_of_total (queries refs : list cell) :
  refs = [] ∨ queries = [] ∨ (Forall is_Some refs ∧ Forall is_Some queries) →
  ∃ unmatched, unmatched_of queries refs = Ok unmatched.
Proof.
  intros [->|[->|[Hrefs Hqs]]].
  - induction queries as [|q qs [u IH]]; csimpl; eauto.
    rewrite IH. csimpl. eauto.
  - csimpl. eauto.
  - apply all_present_fmap in Hrefs as [rs ->].
    apply all_present_fmap in Hqs as [ps ->].
    rewrite unmatched_of_present. eauto.
Qed.

Lemma unique_all_present (col : list cell) :
  Forall is_Some col → Forall is_Some (unique col).
Proof.
  rewrite !Forall_forall. intros H c Hc. apply H. by apply elem_of_unique.
Qed.

(** An empty working table leaves the rest of the matcher without error. *)
Lemma matcher_empty (reference_df : table) (uploaded_microbes : list cell) :
  working_rows reference_df uploaded_microbes = Ok [] →
  ∃ matched_microbes unmatched,
    matcher reference_df uploaded_microbes = Ok ([], matched_microbes, unmatched).
Proof.
  intros Hw. unfold matcher. rewrite Hw. csimpl.
  assert (unique (Microbe <$> reference_df) = [] ∨ uploaded_microbes = [] ∨
          (Forall is_Some (unique (Microbe <$> reference_df)) ∧
           Forall is_Some uploaded_microbes)) as H1.
  { destruct (working_rows_empty _ _ Hw) as [->|[->|[? ?]]]; [by left|by right; left|].
    right; right. split; [|done]. apply unique_all_present. by apply Forall_fmap. }
  assert (Microbe <$> reference_df = [] ∨ uploaded_microbes = [] ∨
          (Forall is_Some (Microbe <$> reference_df) ∧
           Forall is_Some uploaded_microbes)) as H2.
  { destruct (working_rows_empty _ _ Hw) as [->|[->|[? ?]]]; [by left|by right; left|].
    right; right. split; [|done]. by apply Forall_fmap. }
  destruct (matched_loop_total _ _ ∅ H1) as [matched ->]. csimpl.
  destruct (unmatched_of_total _ _ H2) as [unmatched ->]. csimpl. eauto.
Qed.

(** C8.  When the working table is empty after matching, the script shows
    the no-match message, which differs from the schema message, and
    stops: nothing else is shown, in particular no table. *)
Theorem no_match_stops (reference_df : table) (input_df : dataframe)
    (uploaded_microbes : list cell) (sel : selections) (sort_column : sort_option) :
  read_queries input_df = ([], inr uploaded_microbes) →
  working_rows reference_df uploaded_microbes = Ok [] →
  app reference_df Upload_CSV_of_Microbes (Some input_df) sel sort_column
  = ([StError no_match_message], inl Stopped) ∧
  no_match_message ≠ schema_message.
Proof.
  intros Hread Hw. split; [|done].
  destruct (matcher_empty _ _ Hw) as (m & u & Hm).
  unfold app, working_table, upload_branch. rewrite Hread. csimpl.
  rewrite Hm. by csimpl.
Qed.

Lemma no_match_stops_witness :
  read_queries [("Microbe", [Some "Nonexistent Genus"])]
  = ([], inr [Some "Nonexistent Genus"]) ∧
  working_rows scenario_reference [Some "Nonexistent Genus"] = Ok [] ∧
  app scenario_reference Upload_CSV_of_Microbes
    (Some [("Microbe", [Some "Nonexistent Genus"])])
    (Selections [] [] [] [] []) Sort_None
  = ([StError no_match_message], inl Stopped) ∧
  no_match_message ≠ schema_message.
Proof.
  assert (H1 : read_queries [("Microbe", [Some "Nonexistent Genus"])]
               = ([], inr [Some "Nonexistent Genus"])) by reflexivity.
  assert (H2 : working_rows scenario_reference [Some "Nonexistent Genus"] = Ok [])
    by reflexivity.
  split; [exact H1|]. split; [exact H2|].
  exact (no_match_stops scenario_reference _ _ (Selections [] [] [] [] [])
           Sort_None H1 H2).
Defined.

Lemma missing_column_raises (reference_df : table) (input_df : dataframe)
    (sel : selections) (sort_column : sort_option) :
  has_column input_df "Microbe" = false →
  app reference_df Upload_CSV_of_Microbes (Some input_df) sel sort_column
  = ([], inl (Raised (KeyError "Microbe"))).
Proof.
  intros Hcol. unfold app, working_table, upload_branch.
  by rewrite (read_queries_missing _ Hcol).
Qed.

(** C3.  On an upload without a Microbe column the script does not reach
    its schema check: line 21 reads the column first and the run ends
    with an uncaught [KeyError], without the schema message. *)
Theorem missing_column_is_KeyError :
  has_column upload_without_microbe "Microbe" = false ∧
  app scenario_reference Upload_CSV_of_Microbes (Some upload_without_microbe)
    (Selections [] [] [] [] []) Sort_None
  = ([], inl (Raised (KeyError "Microbe"))).
Proof. split; reflexivity. Qed.

(** ** The filter engine *)

Lemma filter_step_filter (col : row → cell) (selected : list string) (T : table) :
  filter_step col selected T = filter (λ r, constraint_met selected (col r)) T.
Proof.
  destruct selected as [|s selected]; csimpl; [|done].
  induction T as [|r T IH]; [done|]. by rewrite filter_cons_True, <- IH.
Qed.

Lemma filter_logic_filter (T : table) (sel : selections) :
  filter_logic T sel = filter (λ r, retained sel r) T.
Proof.
  unfold filter_logic. rewrite !filter_step_filter, !list_filter_filter.
  apply list_filter_iff. intros r. unfold retained.
  rewrite !andb_True. tauto.
Qed.

Lemma constraint_met_spec (selected : list string) (c : cell) :
  constraint_met selected c = true ↔
  selected = [] ∨ ∃ v, c = Some v ∧ v ∈ selected.
Proof.
  unfold constraint_met, isin.
  rewrite orb_true_iff, bool_decide_eq_true.
  destruct c as [v|]; [rewrite bool_decide_eq_true|]; naive_solver.
Qed.

Lemma render_returns (filtered_df : table) : (render filtered_df).2 = inr tt.
Proof. unfold render. csimpl. by destruct (bool_decide _). Qed.

(** C6.  Filter engine: the filtered table is the input table restricted
    to the rows that meet the five column constraints together, a
    constraint being met when the selection set of the column is empty or
    holds the value of the row; the script never fails on the result, and
    an empty one is rendered as an empty table. *)
Theorem filter_logic_retains (T : table) (sel : selections)
    (sort_column : sort_option) :
  filter_logic T sel = filter (λ r, retained sel r) T ∧
  (∀ r, r ∈ filter_logic T sel ↔
     r ∈ T ∧
     (selected_microbe sel = [] ∨
        ∃ v, Microbe r = Some v ∧ v ∈ selected_microbe sel) ∧
     (selected_condition sel = [] ∨
        ∃ v, Condition r = Some v ∧ v ∈ selected_condition sel) ∧
     (selected_effect sel = [] ∨
        ∃ v, Effect r = Some v ∧ v ∈ selected_effect sel) ∧
     (selected_sample sel = [] ∨
        ∃ v, Sample_Type r = Some v ∧ v ∈ selected_sample sel) ∧
     (selected_method sel = [] ∨
        ∃ v, Method r = Some v ∧ v ∈ selected_method sel)) ∧
  (render (sort_dropdown sort_column (filter_logic T sel))).2 = inr tt ∧
  render (sort_dropdown sort_column [])
  = ([StTable []; StDownloadFiltered "filtered_results.csv" []], inr tt).
Proof.
  split; [apply filter_logic_filter|]. split; [|split].
  - intros r. rewrite filter_logic_filter, list_elem_of_filter.
    unfold retained. rewrite !andb_True, !Is_true_true, !constraint_met_spec.
    tauto.
  - apply render_returns.
  - by destruct sort_column.
Qed.

Lemma constraint_met_merge (s1 s2 : list string) (c : cell) :
  s1 = [] ∨ s2 = [] →
  constraint_met (s1 ++ s2) c = constraint_met s1 c && constraint_met s2 c.
Proof.
  intros [-> | ->]; [done|].
  rewrite app_nil_r. unfold constraint_met at 3. csimpl. by rewrite andb_true_r.
Qed.

(** C7.  Filter engine algebra: filtering twice with one selection map is
    filtering once, and filtering with two maps that constrain different
    columns, one after the other, is filtering once with their merge. *)
Theorem filter_logic_algebra (T : table) (S1 S2 : selections) :
  filter_logic (filter_logic T S1) S1 = filter_logic T S1 ∧
  (different_columns S1 S2 →
   filter_logic (filter_logic T S1) S2 = filter_logic T (merge_selections S1 S2)).
Proof.
  rewrite !filter_logic_filter. split.
  - apply list_filter_filter_l. done.
  - intros (Ha & Hb & Hc & Hd & He).
    rewrite list_filter_filter. apply list_filter_iff. intros r.
    unfold retained, merge_selections. csimpl.
    rewrite (constraint_met_merge _ _ _ Ha), (constraint_met_merge _ _ _ Hb),
      (constraint_met_merge _ _ _ Hc), (constraint_met_merge _ _ _ Hd),
      (constraint_met_merge _ _ _ He).
    rewrite !andb_True. tauto.
Qed.

Lemma filter_logic_algebra_witness :
  different_columns (Selections [] ["Obesity"] [] [] [])
    (Selections ["Escherichia coli"] [] [] [] []) ∧
  filter_logic (filter_logic sample_table (Selections [] ["Obesity"] [] [] []))
    (Selections [] ["Obesity"] [] [] [])
  = filter_logic sample_table (Selections [] ["Obesity"] [] [] []) ∧
  filter_logic (filter_logic sample_table (Selections [] ["Obesity"] [] [] []))
    (Selections ["Escherichia coli"] [] [] [] [])
  = filter_logic sample_table
      (merge_selections (Selections [] ["Obesity"] [] [] [])
         (Selections ["Escherichia coli"] [] [] [] [])).
Proof.
  assert (H : different_columns (Selections [] ["Obesity"] [] [] [])
                (Selections ["Escherichia coli"] [] [] [] []))
    by (unfold different_columns; simpl; tauto).
  destruct (filter_logic_algebra sample_table (Selections [] ["Obesity"] [] [] [])
              (Selections ["Escherichia coli"] [] [] [] [])) as [Hidem Hmerge].
  exact (conj H (conj Hidem (Hmerge H))).
Defined.

(** ** NumPy's sort: the order *)

Section Order.
Context {A : Type} (lt : A → A → bool) `{!Npy.WeakOrder lt}.
Implicit Types x y z : A.

Lemma order_le_refl x : Npy.le lt x x.
Proof. apply (Npy.lt_irrefl (lt:=lt)). Qed.

Lemma order_le_trans x y z : Npy.le lt x y → Npy.le lt y z → Npy.le lt x z.
Proof. unfold Npy.le. intros Hxy Hyz. by apply (Npy.nlt_trans (lt:=lt) z y x). Qed.

Lemma order_lt_le x y : lt x y = true → Npy.le lt x y.
Proof.
  unfold Npy.le. intros Hxy. destruct (lt y x) eqn:Hyx; [|done].
  pose proof (Npy.lt_trans (lt:=lt) x y x Hxy Hyx).
  pose proof (Npy.lt_irrefl (lt:=lt) x). congruence.
Qed.

Lemma order_lt_le_trans x y z : lt x y = true → Npy.le lt y z → lt x z = true.
Proof.
  unfold Npy.le. intros Hxy Hyz. destruct (lt x z) eqn:Hxz; [done|].
  pose proof (Npy.nlt_trans (lt:=lt) x z y Hxz Hyz). congruence.
Qed.

Lemma order_le_lt_trans x y z : Npy.le lt x y → lt y z = true → lt x z = true.
Proof.
  unfold Npy.le. intros Hxy Hyz. destruct (lt x z) eqn:Hxz; [done|].
  pose proof (Npy.nlt_trans (lt:=lt) y x z Hxy Hxz). congruence.
Qed.

Lemma tied_spec x y : Npy.tied lt x y = true ↔ Npy.le lt x y ∧ Npy.le lt y x.
Proof.
  unfold Npy.tied, Npy.le. rewrite andb_true_iff, !negb_true_iff. tauto.
Qed.

Lemma tied_lt x y z : Npy.tied lt x y = true → lt y z = true → Npy.tied lt x z = false.
Proof.
  intros [Hxy Hyx]%tied_spec Hyz.
  unfold Npy.tied. by rewrite (order_le_lt_trans x y z).
Qed.

End Order.

(** ** Arrays *)

Section Arrays.
Context {A : Type}.
Implicit Types a : list A.

Lemma insert_Permutation a i x y :
  a !! i = Some y → x :: a ≡ₚ y :: <[i := x]> a.
Proof.
  revert i. induction a as [|z a IH]; intros [|i] Hi; simplify_eq/=.
  - apply perm_swap.
  - rewrite (perm_swap z x), (IH _ Hi). apply perm_swap.
Qed.

Lemma length_swap i j a : length (Npy.swap i j a) = length a.
Proof.
  unfold Npy.swap. destruct (a !! i), (a !! j); by rewrite ?length_insert.
Qed.

Lemma swap_Permutation i j a : Npy.swap i j a ≡ₚ a.
Proof.
  unfold Npy.swap.
  destruct (a !! i) as [x|] eqn:Hi; [|done].
  destruct (a !! j) as [y|] eqn:Hj; [|done].
  destruct (decide (i = j)) as [->|Hne].
  - simplify_eq. rewrite list_insert_insert_eq. by rewrite list_insert_id.
  - apply (inj (cons x)).
    assert (<[j:=x]> a !! i = Some x) as Hi' by (by rewrite list_lookup_insert_ne).
    rewrite (insert_Permutation a j x y Hj).
    by rewrite (insert_Permutation _ i y x Hi').
Qed.

Lemma swap_lookup i j a x y :
  a !! i = Some x → a !! j = Some y →
  Npy.swap i j a !! i = Some y ∧ Npy.swap i j a !! j = Some x ∧
  ∀ k, k ≠ i → k ≠ j → Npy.swap i j a !! k = a !! k.
Proof.
  intros Hi Hj. unfold Npy.swap. rewrite Hi, Hj.
  assert (i < length a) by (by eapply lookup_lt_Some).
  assert (j < length a) by (by eapply lookup_lt_Some).
  split; [|split].
  - rewrite list_lookup_insert_eq; [done|by rewrite length_insert].
  - destruct (decide (i = j)) as [->|Hne].
    + rewrite list_lookup_insert_eq; [congruence|by rewrite length_insert].
    + rewrite list_lookup_insert_ne by done. by rewrite list_lookup_insert_eq.
  - intros k ??. by rewrite !list_lookup_insert_ne.
Qed.
End Arrays.

(** ** Insertion sort *)

Section Insertion.
Context {A : Type} (lt : A → A → bool) `{!Npy.WeakOrder lt}.
Implicit Types seg below : list A.

Lemma StronglySorted_reverse (R : relation A) l :
  StronglySorted (flip R) l → StronglySorted R (reverse l).
Proof.
  induction 1 as [|x l Hl IH Hx]; [constructor|].
  rewrite reverse_cons. apply StronglySorted_app. split; [|split]; [|done|].
  - intros y z Hy ->%list_elem_of_singleton.
    rewrite elem_of_reverse in Hy. rewrite Forall_forall in Hx. by apply Hx.
  - repeat constructor.
Qed.

Lemma shift_down_Permutation vi below :
  Npy.shift_down lt vi below ≡ₚ vi :: below.
Proof.
  induction below as [|y rest IH]; csimpl; [done|].
  destruct (lt vi y); [|done]. rewrite IH. apply perm_swap.
Qed.

Lemma shift_down_sorted vi below :
  StronglySorted (flip (Npy.le lt)) below →
  StronglySorted (flip (Npy.le lt)) (Npy.shift_down lt vi below).
Proof.
  induction 1 as [|y rest Hrest IH Hy]; csimpl; [repeat constructor|].
  destruct (lt vi y) eqn:Hlt.
  - constructor; [done|]. rewrite shift_down_Permutation.
    constructor; [|done]. by apply order_lt_le.
  - constructor; [by constructor|]. constructor; [done|].
    eapply Forall_impl; [exact Hy|]. intros z Hz. csimpl in *.
    by apply (order_le_trans lt z y vi).
Qed.

Lemma foldl_shift_down_sorted seg below :
  StronglySorted (flip (Npy.le lt)) below →
  StronglySorted (flip (Npy.le lt))
    (foldl (λ below vi, Npy.shift_down lt vi below) below seg).
Proof.
  revert below. induction seg as [|x seg IH]; intros below Hb; csimpl; [done|].
  by apply IH, shift_down_sorted.
Qed.

Lemma foldl_shift_down_Permutation seg below :
  foldl (λ below vi, Npy.shift_down lt vi below) below seg ≡ₚ seg ++ below.
Proof.
  revert below. induction seg as [|x seg IH]; intros below; csimpl; [done|].
  rewrite IH, shift_down_Permutation. by rewrite Permutation_middle.
Qed.

Lemma insertion_sort_Permutation seg : Npy.insertion_sort lt seg ≡ₚ seg.
Proof.
  unfold Npy.insertion_sort.
  by rewrite reverse_Permutation, foldl_shift_down_Permutation, app_nil_r.
Qed.

Lemma insertion_sort_sorted seg :
  StronglySorted (Npy.le lt) (Npy.insertion_sort lt seg).
Proof.
  apply StronglySorted_reverse, foldl_shift_down_sorted. constructor.
Qed.

(** Equal elements keep their order. *)
Lemma shift_down_stable x vi below :
  filter (λ y, Npy.tied lt x y) (reverse (Npy.shift_down lt vi below))
  = filter (λ y, Npy.tied lt x y) (reverse below ++ [vi]).
Proof.
  induction below as [|y rest IH]; csimpl; [done|].
  destruct (lt vi y) eqn:Hlt; [|by rewrite !reverse_cons].
  rewrite !reverse_cons, !filter_app, IH, !filter_app, <- !(assoc_L (++)).
  f_equal. rewrite !filter_cons, !filter_nil.
  destruct (Npy.tied lt x vi) eqn:Hvi.
  - rewrite (tied_lt lt x vi y Hvi Hlt). done.
  - csimpl. by rewrite app_nil_r.
Qed.

Lemma foldl_shift_down_stable x seg below :
  filter (λ y, Npy.tied lt x y)
    (reverse (foldl (λ below vi, Npy.shift_down lt vi below) below seg))
  = filter (λ y, Npy.tied lt x y) (reverse below ++ seg).
Proof.
  revert below. induction seg as [|z seg IH]; intros below; csimpl.
  - by rewrite app_nil_r.
  - rewrite IH, (cons_middle z), (assoc_L (++)).
    by rewrite !(filter_app _ _ seg), shift_down_stable.
Qed.

Lemma insertion_sort_stable x seg :
  filter (λ y, Npy.tied lt x y) (Npy.insertion_sort lt seg)
  = filter (λ y, Npy.tied lt x y) seg.
Proof. unfold Npy.insertion_sort. by rewrite foldl_shift_down_stable. Qed.

(** A sorted segment is left as it is. *)
Lemma foldl_shift_down_sorted_id seg below :
  StronglySorted (Npy.le lt) (reverse below ++ seg) →
  foldl (λ below vi, Npy.shift_down lt vi below) below seg
  = reverse seg ++ below.
Proof.
  revert below. induction seg as [|x seg IH]; intros below Hs; csimpl; [done|].
  assert (Npy.shift_down lt x below = x :: below) as ->.
  { destruct below as [|y rest]; [done|]. csimpl.
    assert (Npy.le lt y x) as Hyx; [|by rewrite Hyx].
    eapply (StronglySorted_app_1_elem_of _ _ _ _ _ Hs);
      [rewrite reverse_cons|]; set_solver. }
  rewrite IH.
  - by rewrite reverse_cons, <- (assoc_L (++)).
  - by rewrite reverse_cons, <- (assoc_L (++)).
Qed.

Lemma insertion_sort_sorted_id seg :
  StronglySorted (Npy.le lt) seg → Npy.insertion_sort lt seg = seg.
Proof.
  intros Hs. unfold Npy.insertion_sort.
  rewrite foldl_shift_down_sorted_id by done.
  by rewrite app_nil_r, reverse_involutive.
Qed.
End Insertion.

(** ** The partition *)

Section Partition.
Context {A : Type} (lt : A → A → bool) `{!Npy.WeakOrder lt}.
Implicit Types a : list A.
Local Abbreviation hoare_inv := (Npy.hoare_inv lt).
Local Abbreviation partitioned := (Npy.partitioned lt).

Lemma count_while_before P (l : list A) k x :
  k < Npy.count_while P l → l !! k = Some x → P x = true.
Proof.
  revert k. induction l as [|y l IH]; intros k; csimpl; [lia|].
  destruct (P y) eqn:Hy; [|lia]. destruct k as [|k]; csimpl.
  - by intros _ [= <-].
  - intros ?. apply IH. lia.
Qed.

Lemma count_while_stop P (l : list A) x :
  l !! Npy.count_while P l = Some x → P x = false.
Proof.
  induction l as [|y l IH]; csimpl; [done|].
  destruct (P y) eqn:Hy; csimpl; [done|]. by intros [= <-].
Qed.

Lemma count_while_bound P (l : list A) k x :
  l !! k = Some x → P x = false → Npy.count_while P l ≤ k.
Proof.
  intros Hk Hx. destruct (decide (Npy.count_while P l ≤ k)); [done|].
  assert (P x = true); [|congruence].
  eapply count_while_before; [|done]. lia.
Qed.

(** The upward scan stops at or before a sentinel. *)
Lemma scan_up_spec a vp i s y :
  i < s → a !! s = Some y → lt y vp = false →
  let i' := Npy.scan_up lt a vp i in
  i < i' ≤ s ∧
  (∃ z, a !! i' = Some z ∧ lt z vp = false) ∧
  (∀ k x, i < k < i' → a !! k = Some x → lt x vp = true).
Proof.
  intros His Hs Hy. unfold Npy.scan_up. csimpl.
  set (c := Npy.count_while (λ x, lt x vp) (drop (S i) a)).
  assert (c ≤ s - S i) as Hc.
  { apply (count_while_bound _ _ _ y); [|done].
    rewrite lookup_drop. by replace (S i + (s - S i)) with s by lia. }
  split; [lia|]. split.
  - destruct (a !! (S (i + c))) as [z|] eqn:Hz.
    + exists z. split; [done|].
      apply (count_while_stop (λ x, lt x vp) (drop (S i) a)).
      by rewrite lookup_drop.
    + apply lookup_ge_None in Hz. apply lookup_lt_Some in Hs. lia.
  - intros k x Hk Hx.
    apply (count_while_before (λ x, lt x vp) (drop (S i) a) (k - S i)); [lia|].
    rewrite lookup_drop. by replace (S i + (k - S i)) with k by lia.
Qed.

(** The downward scan stops at or after a sentinel. *)
Lemma scan_down_spec a vp j s y :
  s < j → j ≤ length a → a !! s = Some y → lt vp y = false →
  let j' := Npy.scan_down lt a vp j in
  s ≤ j' < j ∧
  (∃ z, a !! j' = Some z ∧ lt vp z = false) ∧
  (∀ k x, j' < k < j → a !! k = Some x → lt vp x = true).
Proof.
  intros Hsj Hj Hs Hy. unfold Npy.scan_down. csimpl.
  set (l := reverse (take j a)).
  set (c := Npy.count_while (λ x, lt vp x) l).
  assert (length l = j) as Hl by (unfold l; rewrite length_reverse, length_take; lia).
  assert (∀ k, k < j → l !! k = a !! (j - 1 - k)) as Hlk.
  { intros k Hk. unfold l. rewrite reverse_lookup by (rewrite length_take; lia).
    rewrite length_take, lookup_take_lt by lia. f_equal. lia. }
  assert (c ≤ j - 1 - s) as Hc.
  { apply (count_while_bound _ _ _ y); [|done].
    rewrite Hlk by lia. by replace (j - 1 - (j - 1 - s)) with s by lia. }
  split; [lia|]. split.
  - destruct (a !! (j - 1 - c)) as [z|] eqn:Hz.
    + exists z. split; [done|].
      apply (count_while_stop (λ x, lt vp x) l). by rewrite Hlk by lia.
    + apply lookup_ge_None in Hz. lia.
  - intros k x Hk Hx.
    apply (count_while_before (λ x, lt vp x) l (j - 1 - k)); [fold c; lia|].
    rewrite Hlk by lia. by replace (j - 1 - (j - 1 - k)) with k by lia.
Qed.

Lemma hoare_spec fuel a vp i j :
  hoare_inv a vp i j → j - i ≤ fuel →
  ∃ a' p, Npy.hoare lt fuel a vp i j = (a', p) ∧
    a' ≡ₚ a ∧ length a' = length a ∧ i < p ≤ j ∧
    (∀ k x, k < p → a' !! k = Some x → lt vp x = false) ∧
    (∀ k x, p ≤ k → a' !! k = Some x → lt x vp = false) ∧
    (∀ k, j ≤ k → a' !! k = a !! k).
Proof.
  revert a i j. induction fuel as [|fuel IH]; intros a i j (Hij & Hj & Hlo & Hhi) Hfuel;
    [lia|].
  destruct (lookup_lt_is_Some_2 a j Hj) as [yj Hyj].
  destruct (lookup_lt_is_Some_2 a i ltac:(lia)) as [yi Hyi].
  destruct (scan_up_spec a vp i j yj Hij Hyj (Hhi _ _ (le_n _) Hyj))
    as (Hi' & (zi & Hzi & Hzi') & Hbelow).
  destruct (scan_down_spec a vp j i yi Hij ltac:(lia) Hyi (Hlo _ _ (le_n _) Hyi))
    as (Hj' & (zj & Hzj & Hzj') & Habove).
  cbn [Npy.hoare].
  set (i' := Npy.scan_up lt a vp i) in *.
  set (j' := Npy.scan_down lt a vp j) in *.
  assert (∀ k x, k < i' → a !! k = Some x → lt vp x = false) as Hlo'.
  { intros k x Hk Hx. destruct (decide (k ≤ i)); [by eapply Hlo|].
    apply (order_lt_le lt). apply (Hbelow k); [lia|done]. }
  assert (∀ k x, j' < k → a !! k = Some x → lt x vp = false) as Hhi'.
  { intros k x Hk Hx. destruct (decide (j ≤ k)); [by eapply Hhi|].
    apply (order_lt_le lt). apply (Habove k); [lia|done]. }
  destruct (j' <=? i') eqn:Hcmp.
  - apply Nat.leb_le in Hcmp. exists a, i'.
    split; [done|]. split; [done|]. split; [done|]. split; [lia|].
    split; [done|]. split; [|done].
    intros k x Hk Hx. destruct (decide (k = i')) as [->|]; [congruence|].
    apply (Hhi' k); [lia|done].
  - apply Nat.leb_gt in Hcmp.
    destruct (swap_lookup i' j' a zi zj Hzi Hzj) as (Hsi & Hsj & Hsk).
    destruct (IH (Npy.swap i' j' a) i' j') as (a' & p & Heq & Hperm & Hlen & Hp & Hl & Hr & Hsame).
    { split; [done|]. split; [rewrite length_swap; lia|]. split.
      - intros k x Hk Hx. destruct (decide (k = i')) as [->|]; [congruence|].
        rewrite Hsk in Hx by lia. apply (Hlo' k); [lia|done].
      - intros k x Hk Hx. destruct (decide (k = j')) as [->|]; [congruence|].
        rewrite Hsk in Hx by lia. apply (Hhi' k); [lia|done]. }
    { lia. }
    exists a', p. split; [done|].
    split; [by rewrite Hperm, swap_Permutation|].
    split; [by rewrite Hlen, length_swap|]. split; [lia|].
    split; [done|]. split; [done|].
    intros k Hk. rewrite Hsame by lia. apply Hsk; lia.
Qed.

(** One conditional swap of the median-of-three selection. *)
Lemma cond_swap_spec a i j xi xj :
  a !! i = Some xi → a !! j = Some xj → i ≠ j →
  let a' := if Npy.lt_at lt a i j then Npy.swap i j a else a in
  a' ≡ₚ a ∧ length a' = length a ∧
  (∀ k, k ≠ i → k ≠ j → a' !! k = a !! k) ∧
  ∃ yi yj, a' !! i = Some yi ∧ a' !! j = Some yj ∧ lt yi yj = false ∧
    ((yi = xi ∧ yj = xj) ∨ (yi = xj ∧ yj = xi ∧ lt xi xj = true)).
Proof.
  intros Hi Hj Hne. unfold Npy.lt_at. rewrite Hi, Hj. csimpl.
  destruct (lt xi xj) eqn:Hlt.
  - destruct (swap_lookup i j a xi xj Hi Hj) as (Hsi & Hsj & Hsk).
    split; [apply swap_Permutation|]. split; [apply length_swap|].
    split; [done|]. exists xj, xi. split; [done|]. split; [done|].
    split; [by apply (order_lt_le lt)|]. by right.
  - split; [done|]. split; [done|]. split; [done|].
    exists xi, xj. split; [done|]. split; [done|]. split; [done|]. by left.
Qed.

Lemma median3_spec a m r :
  0 < m → m < r → r < length a →
  let a' := Npy.median3 lt m r a in
  a' ≡ₚ a ∧ length a' = length a ∧
  ∃ x0 xm xr, a' !! 0 = Some x0 ∧ a' !! m = Some xm ∧ a' !! r = Some xr ∧
    Npy.le lt x0 xm ∧ Npy.le lt xm xr.
Proof.
  intros Hm Hmr Hr. unfold Npy.median3.
  destruct (lookup_lt_is_Some_2 a 0 ltac:(lia)) as [x0 H0].
  destruct (lookup_lt_is_Some_2 a m ltac:(lia)) as [xm Hxm].
  destruct (lookup_lt_is_Some_2 a r ltac:(lia)) as [xr Hxr].
  destruct (cond_swap_spec a m 0 xm x0 Hxm H0 ltac:(lia))
    as (Hp1 & Hl1 & Hk1 & ym & y0 & Hym & Hy0 & Hle1 & _).
  set (a1 := if Npy.lt_at lt a m 0 then Npy.swap m 0 a else a) in *.
  assert (a1 !! r = Some xr) as Hxr1 by (rewrite Hk1 by lia; done).
  destruct (cond_swap_spec a1 r m xr ym Hxr1 Hym ltac:(lia))
    as (Hp2 & Hl2 & Hk2 & zr & zm & Hzr & Hzm & Hle2 & Hcase2).
  set (a2 := if Npy.lt_at lt a1 r m then Npy.swap r m a1 else a1) in *.
  assert (a2 !! 0 = Some y0) as Hy02 by (rewrite Hk2 by lia; done).
  destruct (cond_swap_spec a2 m 0 zm y0 Hzm Hy02 ltac:(lia))
    as (Hp3 & Hl3 & Hk3 & wm & w0 & Hwm & Hw0 & Hle3 & Hcase3).
  set (a3 := if Npy.lt_at lt a2 m 0 then Npy.swap m 0 a2 else a2) in *.
  split; [by rewrite Hp3, Hp2, Hp1|]. split; [congruence|].
  exists w0, wm, zr. split; [done|]. split; [done|].
  split; [rewrite Hk3 by lia; done|]. split; [done|].
  unfold Npy.le in *.
  destruct Hcase3 as [[-> ->]|(-> & -> & Hlt3)]; [done|].
  destruct Hcase2 as [[-> ->]|(-> & -> & Hlt2)]; [congruence|done].
Qed.

Lemma partition_spec a :
  3 ≤ length a →
  ∃ a' p, Npy.partition lt a = (a', p) ∧ a' ≡ₚ a ∧ p < length a ∧
          partitioned a' p.
Proof.
  intros Hlen. unfold Npy.partition.
  set (r := length a - 1). set (m := r / 2).
  assert (0 < m ∧ m < r ∧ m ≤ r - 1) as (Hm & Hmr & Hmr').
  { assert (2 ≤ r) by (unfold r; lia).
    assert (r = 2 * m + r mod 2) by apply Nat.div_mod_eq.
    assert (r mod 2 < 2) by (by apply Nat.mod_upper_bound).
    lia. }
  destruct (median3_spec a m r Hm Hmr ltac:(unfold r; lia))
    as (Hp1 & Hl1 & x0 & vp & xr & H0 & Hvp & Hxr & Hle0 & Hler).
  set (a1 := Npy.median3 lt m r a) in *. rewrite Hvp.
  destruct (lookup_lt_is_Some_2 a1 (r - 1) ltac:(unfold r; lia)) as [xq Hxq].
  destruct (swap_lookup m (r - 1) a1 vp xq Hvp Hxq) as (Hsm & Hsq & Hsk).
  set (a2 := Npy.swap m (r - 1) a1) in *.
  assert (length a2 = length a) as Hl2 by (unfold a2; by rewrite length_swap).
  assert (a2 !! 0 = Some x0) as H02 by (rewrite Hsk by lia; done).
  assert (a2 !! r = Some xr) as Hxr2 by (rewrite Hsk by lia; done).
  destruct (hoare_spec (length a2) a2 vp 0 (r - 1))
    as (a3 & p & Heq & Hp3 & Hl3 & Hp & Hlo & Hhi & Hsame).
  { split; [lia|]. split; [unfold r; lia|]. split.
    - intros k x Hk Hx. assert (k = 0) as -> by lia. congruence.
    - intros k x Hk Hx. apply lookup_lt_Some in Hx as Hk'.
      destruct (decide (k = r - 1)) as [->|].
      + assert (x = vp) as -> by congruence. apply (order_le_refl lt).
      + assert (k = r) as -> by (unfold r in *; lia). congruence. }
  { unfold r; lia. }
  rewrite Heq.
  assert (a3 !! (r - 1) = Some vp) as Hq3 by (by rewrite Hsame).
  destruct (lookup_lt_is_Some_2 a3 p ltac:(unfold r in *; lia)) as [xp Hxp].
  destruct (swap_lookup p (r - 1) a3 xp vp Hxp Hq3) as (Hfp & Hfq & Hfk).
  exists (Npy.swap p (r - 1) a3), p. split; [done|].
  split; [rewrite swap_Permutation, Hp3; unfold a2; by rewrite swap_Permutation|].
  split; [unfold r in *; lia|].
  exists vp. split; [done|]. split.
  - apply Forall_forall. intros x Hx.
    apply list_elem_of_lookup in Hx as [k Hk].
    apply lookup_take_Some in Hk as [Hk Hkp].
    rewrite Hfk in Hk by lia. by apply (Hlo k).
  - apply Forall_forall. intros x Hx.
    apply list_elem_of_lookup in Hx as [k Hk].
    rewrite lookup_drop in Hk.
    destruct (decide (S p + k = r - 1)) as [Heq'|Hne].
    + rewrite Heq' in Hk. assert (x = xp) as -> by congruence.
      by apply (Hhi p).
    + rewrite Hfk in Hk by lia. apply (Hhi (S p + k)); [lia|done].
Qed.
End Partition.

(** ** Heapsort *)

Section Heap.
Context {A : Type} (lt : A → A → bool) `{!Npy.WeakOrder lt}.
Implicit Types a b : list A.
Local Abbreviation node_le := (Npy.node_le lt).
Local Abbreviation child := Npy.child.
Local Abbreviation heap := (Npy.heap lt).
Local Abbreviation sift_inv := (Npy.sift_inv lt).

Lemma sift_finish b n l i :
  sift_inv b n l i →
  (∀ c, c ≤ n → child c i → node_le b c i) →
  heap b l n.
Proof.
  intros [Hinv _] Hi k c Hk Hc Hch.
  destruct (decide (k = i)) as [->|]; [by apply Hi|by apply Hinv].
Qed.

Lemma fill_step a i j tmp aj :
  i ≠ j → i < length a → a !! j = Some aj →
  <[j := tmp]> (<[i := aj]> a) = Npy.swap i j (<[i := tmp]> a).
Proof.
  intros Hne Hi Hj. unfold Npy.swap.
  rewrite list_lookup_insert_eq by done.
  rewrite list_lookup_insert_ne, Hj by done.
  rewrite (list_insert_insert_ne _ i j) by done.
  by rewrite list_insert_insert_eq.
Qed.

Lemma sift_stop a n l tmp i :
  1 ≤ i → i ≤ n → n ≤ length a →
  sift_inv (<[i - 1 := tmp]> a) n l i →
  (∀ c, c ≤ n → child c i → node_le (<[i - 1 := tmp]> a) c i) →
  let b' := <[i - 1 := tmp]> a in
  heap b' l n ∧ b' ≡ₚ <[i - 1 := tmp]> a ∧ length b' = length a ∧
  (∀ k, n ≤ k → b' !! k = a !! k).
Proof.
  intros Hi Hin Hn Hinv Hch. split; [by apply (sift_finish _ _ _ i)|].
  split; [done|]. split; [by apply length_insert|].
  intros k Hk. apply list_lookup_insert_ne. lia.
Qed.

Lemma sift_spec fuel a n l tmp i :
  1 ≤ l → l ≤ i → i ≤ n → n ≤ length a → n < i + i + fuel →
  sift_inv (<[i - 1 := tmp]> a) n l i →
  let b' := Npy.sift lt fuel a n tmp i (i + i) in
  heap b' l n ∧ b' ≡ₚ <[i - 1 := tmp]> a ∧ length b' = length a ∧
  (∀ k, n ≤ k → b' !! k = a !! k).
Proof.
  revert a i. induction fuel as [|fuel IH]; intros a i Hl Hli Hin Hn Hfuel Hinv;
    cbn [Npy.sift].
  { apply sift_stop; [lia|done|done|done|]. intros c Hc [-> | ->]; lia. }
  destruct (i + i <=? n) eqn:Hj;
    [apply Nat.leb_le in Hj|apply Nat.leb_gt in Hj]; cycle 1.
  { apply sift_stop; [lia|done|done|done|]. intros c Hc [-> | ->]; lia. }
  set (b := <[i - 1 := tmp]> a) in *.
  assert (∀ k, k ≠ i - 1 → b !! k = a !! k) as Hb
    by (intros k Hk; by apply list_lookup_insert_ne).
  assert (b !! (i - 1) = Some tmp) as Hbi
    by (apply list_lookup_insert_eq; lia).
  set (j := if (i + i <? n) && Npy.lt_at lt a (i + i - 1) (i + i)
            then S (i + i) else i + i).
  assert (child j i ∧ j ≤ n ∧
          ∀ c x y, c ≤ n → child c i → a !! (c - 1) = Some x →
                   a !! (j - 1) = Some y → Npy.le lt x y) as (Hji & Hjn & Hmax).
  { unfold j, child.
    destruct (i + i <? n) eqn:E1; csimpl.
    - apply Nat.ltb_lt in E1. unfold Npy.lt_at.
      destruct (lookup_lt_is_Some_2 a (i + i - 1) ltac:(lia)) as [x1 Hx1].
      destruct (lookup_lt_is_Some_2 a (i + i) ltac:(lia)) as [x2 Hx2].
      rewrite Hx1, Hx2. destruct (lt x1 x2) eqn:E2.
      + split; [lia|]. split; [lia|]. intros c x y Hc [-> | ->] Hx Hy.
        * at_position Hx (i + i - 1).
          at_position Hy (i + i).
          simplify_eq. by apply (order_lt_le lt).
        * at_position Hx (i + i).
          at_position Hy (i + i).
          simplify_eq. apply (order_le_refl lt).
      + split; [lia|]. split; [lia|]. intros c x y Hc [-> | ->] Hx Hy.
        * at_position Hx (i + i - 1).
          simplify_eq. apply (order_le_refl lt).
        * at_position Hx (i + i).
          simplify_eq. done.
    - apply Nat.ltb_ge in E1. split; [lia|]. split; [lia|].
      intros c x y Hc [-> | ->] Hx Hy; [|lia].
      at_position Hx (i + i - 1).
      simplify_eq. apply (order_le_refl lt). }
  clearbody j.
  destruct (lookup_lt_is_Some_2 a (j - 1) ltac:(lia)) as [aj Haj]. rewrite Haj.
  assert (j ≠ i ∧ 1 ≤ j ∧ i < j) as (Hjne & Hj1 & Hij) by (destruct Hji; lia).
  destruct (lt tmp aj) eqn:Hlt.
  - assert (<[j - 1 := tmp]> (<[i - 1 := aj]> a)
            = Npy.swap (i - 1) (j - 1) b) as Hfill
      by (apply fill_step; [lia|lia|done]).
    assert (b !! (j - 1) = Some aj) as Hbj by (rewrite Hb by lia; done).
    destruct (swap_lookup (i - 1) (j - 1) b tmp aj Hbi Hbj) as (Hsi & Hsj & Hsk).
    destruct (IH (<[i - 1 := aj]> a) j) as (Hheap & Hperm & Hlen & Hk);
      [lia|lia|lia|by rewrite length_insert|destruct Hji; lia| |].
    + rewrite Hfill. destruct Hinv as [Hinv1 Hinv2]. split.
      * intros k c Hk Hkj Hc Hch x y Hx Hy.
        destruct (decide (k = i)) as [->|Hki].
        -- rewrite Hsi in Hy. simplify_eq.
           destruct (decide (c = j)) as [->|Hcj].
           ++ rewrite Hsj in Hx. simplify_eq. by apply (order_lt_le lt).
           ++ rewrite Hsk, Hb in Hx by (destruct Hch; lia).
              by eapply (Hmax c).
        -- assert (c ≠ j) by (destruct Hch, Hji; lia).
           rewrite Hsk in Hy by (destruct Hch; lia).
           destruct (decide (c = i)) as [->|Hci].
           ++ rewrite Hsi in Hx. simplify_eq.
              by eapply (Hinv2 k j Hk Hch Hjn Hji).
           ++ rewrite Hsk in Hx by (destruct Hch; lia).
              by eapply (Hinv1 k c Hk Hki Hc Hch).
      * intros p c Hp Hjp Hc Hch x y Hx Hy.
        assert (p = i) as -> by (destruct Hjp, Hji; lia).
        rewrite Hsi in Hy. simplify_eq.
        rewrite Hsk in Hx by (destruct Hch, Hji; lia).
        by eapply (Hinv1 j c ltac:(lia) Hjne Hc Hch).
    + split; [done|]. split; [by rewrite Hperm, Hfill, swap_Permutation|].
      split; [by rewrite Hlen, length_insert|].
      intros k Hkn. rewrite Hk by done. apply list_lookup_insert_ne. lia.
  - apply sift_stop; [lia|done|done|done|].
    intros c Hc Hch x y Hx Hy. fold b in Hx, Hy. rewrite Hbi in Hy. simplify_eq.
    rewrite Hb in Hx by (destruct Hch; lia).
    eapply (order_le_trans lt); [by eapply (Hmax c)|done].
Qed.

Lemma heapify_spec l n a :
  n ≤ length a → l ≤ n → heap a (S l) n →
  let b := Npy.heapify lt l n a in
  heap b 1 n ∧ b ≡ₚ a ∧ length b = length a ∧
  (∀ k, n ≤ k → b !! k = a !! k).
Proof.
  revert a. induction l as [|l IH]; intros a Hn Hl Hheap; cbn [Npy.heapify].
  { done. }
  destruct (lookup_lt_is_Some_2 a l ltac:(lia)) as [tmp Htmp]. rewrite Htmp.
  assert (<[S l - 1 := tmp]> a = a) as Hfill.
  { apply list_insert_id. by at_position Htmp (S l - 1). }
  destruct (sift_spec n a n (S l) tmp (S l))
    as (Hheap1 & Hperm1 & Hlen1 & Hk1); [lia|lia|lia|lia|lia| |].
  { rewrite Hfill. split.
    - intros k c Hk Hne Hc Hch. apply Hheap; [lia|done|done].
    - intros p c Hp [?|?]; lia. }
  rewrite Hfill in Hperm1.
  destruct (IH (Npy.sift lt n a n tmp (S l) (S l + S l)))
    as (Hheap2 & Hperm2 & Hlen2 & Hk2); [lia|lia|done|].
  split; [done|]. split; [by rewrite Hperm2|]. split; [lia|].
  intros k Hk. by rewrite Hk2, Hk1.
Qed.

(** The root of a heap is its greatest element. *)
Lemma heap_root b n k x y :
  heap b 1 n → 1 ≤ k → k ≤ n → n ≤ length b →
  b !! (k - 1) = Some x → b !! 0 = Some y → Npy.le lt x y.
Proof.
  intros Hheap. revert x. induction (lt_wf k) as [k _ IH]. intros x Hk Hkn Hn Hx Hy.
  destruct (decide (k = 1)) as [->|Hne].
  { csimpl in Hx. simplify_eq. apply (order_le_refl lt). }
  set (p := k / 2).
  assert (child k p ∧ 1 ≤ p ∧ p < k) as (Hch & Hp1 & Hpk).
  { assert (k = 2 * p + k mod 2) by apply Nat.div_mod_eq.
    assert (k mod 2 < 2) by (by apply Nat.mod_upper_bound).
    unfold child. lia. }
  destruct (lookup_lt_is_Some_2 b (p - 1) ltac:(lia)) as [z Hz].
  apply (order_le_trans lt x z y).
  - by apply (Hheap p k Hp1 Hkn Hch).
  - apply (IH p); [lia|lia|lia|lia|done|done].
Qed.

Lemma extract_spec n a :
  n ≤ length a → heap a 1 n →
  StronglySorted (Npy.le lt) (drop n a) →
  (∀ x y, x ∈ take n a → y ∈ drop n a → Npy.le lt x y) →
  let b := Npy.extract lt n a in
  StronglySorted (Npy.le lt) b ∧ b ≡ₚ a.
Proof.
  revert a. induction n as [|n' IH]; intros a Hn Hheap Hsorted Hcross.
  { done. }
  destruct n' as [|m].
  { split; [|done]. cbn [Npy.extract].
    rewrite <- (take_drop 1 a). apply StronglySorted_app.
    split; [exact Hcross|]. split; [|done].
    destruct a as [|x a]; repeat constructor. }
  cbn [Npy.extract].
  destruct (lookup_lt_is_Some_2 a (S m) ltac:(lia)) as [tmp Htmp].
  destruct (lookup_lt_is_Some_2 a 0 ltac:(lia)) as [top Htop].
  rewrite Htmp, Htop.
  set (sw := <[S m := top]> a).
  set (fill := <[1 - 1 := tmp]> sw).
  assert (∀ k, k ≠ 0 → k ≠ S m → fill !! k = a !! k) as Hfk.
  { intros k ??. unfold fill, sw. by rewrite !list_lookup_insert_ne. }
  assert (fill !! 0 = Some tmp) as Hf0.
  { apply list_lookup_insert_eq. unfold sw. rewrite length_insert. lia. }
  assert (fill ≡ₚ a) as Hfperm.
  { replace fill with (Npy.swap 0 (S m) a); [apply swap_Permutation|].
    unfold Npy.swap. by rewrite Htop, Htmp. }
  assert (length sw = length a) as Hlsw by apply length_insert.
  destruct (sift_spec (S m) sw (S m) 1 tmp 1)
    as (Hheap1 & Hperm1 & Hlen1 & Hk1); [lia|lia|lia|lia|lia| |].
  { fold fill. split.
    - intros k c Hk Hne Hc Hch x y Hx Hy.
      rewrite Hfk in Hx, Hy by (destruct Hch; lia).
      eapply (Hheap k c); [lia|lia|done|done|done].
    - intros p c Hp [?|?]; lia. }
  fold fill in Hperm1.
  set (b1 := Npy.sift lt (S m) sw (S m) tmp 1 (1 + 1)) in *.
  change (Npy.sift lt (S m) sw (S m) tmp 1 2) with b1.
  assert (drop (S m) b1 = top :: drop (S (S m)) a) as Hdrop.
  { apply list_eq. intros k. rewrite lookup_drop, Hk1 by lia.
    unfold sw. destruct k as [|k]; csimpl.
    - rewrite Nat.add_0_r. apply list_lookup_insert_eq. lia.
    - rewrite list_lookup_insert_ne by lia. rewrite lookup_drop. f_equal. lia. }
  assert (∀ x, x ∈ take (S m) b1 → x ∈ take (S (S m)) a) as Htake.
  { intros x Hx.
    assert (take (S m) b1 ≡ₚ take (S m) fill) as Hp.
    { apply (Permutation.Permutation_app_inv_r (drop (S m) b1)).
      rewrite take_drop.
      replace (drop (S m) b1) with (drop (S m) fill).
      - by rewrite take_drop.
      - apply list_eq. intros k. rewrite !lookup_drop, Hk1 by lia.
        unfold fill. apply list_lookup_insert_ne. lia. }
    rewrite Hp in Hx. apply list_elem_of_lookup in Hx as [k Hk].
    apply lookup_take_Some in Hk as [Hk Hkm].
    apply list_elem_of_lookup.
    destruct (decide (k = 0)) as [->|Hk0].
    - exists (S m). rewrite lookup_take_lt by lia. congruence.
    - exists k. rewrite lookup_take_lt by lia. by rewrite <- Hfk by lia. }
  assert (top ∈ take (S (S m)) a) as Htopin.
  { apply list_elem_of_lookup. exists 0. by rewrite lookup_take_lt by lia. }
  destruct (IH b1) as [Hs Hp]; [lia|done| | |].
  - rewrite Hdrop. constructor; [done|].
    apply Forall_forall. intros y Hy. by apply Hcross.
  - intros x y Hx Hy. rewrite Hdrop in Hy.
    apply Htake in Hx as Hx'. apply elem_of_cons in Hy as [->|Hy].
    + apply list_elem_of_lookup in Hx' as [k Hk].
      apply lookup_take_Some in Hk as [Hk Hkm].
      apply (heap_root a (S (S m)) (S k)); [done|lia|lia|lia| |done].
      by at_position Hk (S k - 1).
    + by apply Hcross.
  - split; [done|]. by rewrite Hp, Hperm1.
Qed.

Lemma aheapsort_spec a :
  StronglySorted (Npy.le lt) (Npy.aheapsort lt a) ∧ Npy.aheapsort lt a ≡ₚ a.
Proof.
  unfold Npy.aheapsort. set (n := length a).
  assert (n / 2 ≤ n) as Hhalf.
  { assert (n = 2 * (n / 2) + n mod 2) by apply Nat.div_mod_eq. lia. }
  destruct (heapify_spec (n / 2) n a) as (Hheap & Hperm & Hlen & _); [done|done| |].
  { intros k c Hk Hc Hch.
    assert (n = 2 * (n / 2) + n mod 2) by apply Nat.div_mod_eq.
    assert (n mod 2 < 2) by (by apply Nat.mod_upper_bound).
    destruct Hch; lia. }
  destruct (extract_spec n (Npy.heapify lt (n / 2) n a)) as [Hs Hp];
    [lia|done| | |].
  - rewrite drop_ge by lia. constructor.
  - intros x y _. rewrite drop_ge by lia. by intros ?%elem_of_nil.
  - split; [done|]. by rewrite Hp.
Qed.
End Heap.

(** ** The introsort *)

Section Quicksort.
Context {A : Type} (lt : A → A → bool) `{!Npy.WeakOrder lt}.

Lemma aquicksort_loop_spec fuel popped cdepth (seg : list A) :
  length seg < fuel →
  StronglySorted (Npy.le lt) (Npy.aquicksort_loop lt fuel popped cdepth seg) ∧
  Npy.aquicksort_loop lt fuel popped cdepth seg ≡ₚ seg.
Proof.
  revert popped cdepth seg.
  induction fuel as [|fuel IH]; intros popped cdepth seg Hfuel; [lia|].
  cbn [Npy.aquicksort_loop].
  destruct (popped && (cdepth <? 0)%Z); [apply (aheapsort_spec lt)|].
  destruct (Npy.SMALL_QUICKSORT <? length seg - 1) eqn:Hsmall; cycle 1.
  { split; [apply (insertion_sort_sorted lt)|apply insertion_sort_Permutation]. }
  apply Nat.ltb_lt in Hsmall. unfold Npy.SMALL_QUICKSORT in Hsmall.
  destruct (partition_spec lt seg) as (a & p & -> & Hperm & Hp & pivot & Hpivot & Hlo & Hhi);
    [lia|].
  assert (length a = length seg) as Hlen by (by rewrite Hperm).
  rewrite Hpivot. cbn [option_list].
  destruct (IH (negb (p <? length seg - 1 - p)) (cdepth - 1)%Z (take p a))
    as [HsL HpL]; [rewrite length_take; lia|].
  destruct (IH (p <? length seg - 1 - p) (cdepth - 1)%Z (drop (S p) a))
    as [HsR HpR]; [rewrite length_drop; lia|].
  split.
  - apply StronglySorted_app. split; [|split; [done|]].
    + intros x y Hx Hy. rewrite HpL in Hx.
      rewrite Forall_forall in Hlo. specialize (Hlo x Hx).
      apply elem_of_cons in Hy as [->|Hy]; [done|].
      rewrite HpR in Hy. rewrite Forall_forall in Hhi.
      by apply (order_le_trans lt x pivot y), Hhi.
    + constructor; [done|]. by rewrite HpR.
  - rewrite HpL, HpR, <- Hperm. csimpl. by rewrite take_drop_middle.
Qed.

Lemma aquicksort_sorted (a : list A) :
  StronglySorted (Npy.le lt) (Npy.aquicksort lt a).
Proof. apply aquicksort_loop_spec. lia. Qed.

Lemma aquicksort_Permutation (a : list A) : Npy.aquicksort lt a ≡ₚ a.
Proof. apply aquicksort_loop_spec. lia. Qed.
End Quicksort.

(** Up to sixteen elements the introsort is the insertion sort. *)
Lemma aquicksort_small {A} (lt : A → A → bool) (a : list A) :
  length a ≤ 16 → Npy.aquicksort lt a = Npy.insertion_sort lt a.
Proof.
  intros Hlen. unfold Npy.aquicksort. cbn [Npy.aquicksort_loop].
  assert ((Npy.initial_depth (length a) <? 0)%Z = false) as ->
    by (apply Z.ltb_ge; unfold Npy.initial_depth; lia).
  assert ((Npy.SMALL_QUICKSORT <? length a - 1) = false) as ->
    by (unfold Npy.SMALL_QUICKSORT; apply Nat.ltb_ge; lia).
  done.
Qed.

(** ** [nargsort] and [take] *)

Section Nargsort.
Context {K R : Type} (key : R → option K).
Implicit Types (T : list R) (q : list (nat * K)).
Local Abbreviation present := Npy.present.
Local Abbreviation missing := Npy.missing.

Lemma present_cons s (x : option K) items :
  present s (x :: items)
  = from_option (λ k, [(s, k)]) [] x ++ present (S s) items.
Proof. by destruct x. Qed.

Lemma missing_cons s (x : option K) items :
  missing s (x :: items)
  = from_option (λ _, []) [s] x ++ missing (S s) items.
Proof. by destruct x. Qed.

Lemma present_missing_Permutation s (items : list (option K)) :
  (present s items).*1 ++ missing s items ≡ₚ seq s (length items).
Proof.
  revert s. induction items as [|x items IH]; intros s; [done|].
  rewrite present_cons, missing_cons, fmap_app. cbn [length seq].
  rewrite <- (IH (S s)). destruct x as [k|]; csimpl; [done|].
  by rewrite <- Permutation_middle.
Qed.

Lemma present_rows T1 T2 :
  omap (λ p : nat * K, (T1 ++ T2) !! p.1) (present (length T1) (key <$> T2))
  = filter (λ r, is_Some (key r)) T2.
Proof.
  revert T1. induction T2 as [|r T2 IH]; intros T1; [done|].
  rewrite fmap_cons, present_cons, omap_app.
  specialize (IH (T1 ++ [r])).
  rewrite length_app, <- (assoc_L (++)), <- cons_middle in IH.
  cbn [length] in IH. rewrite Nat.add_1_r in IH. rewrite IH.
  destruct (key r) as [k|] eqn:Hk; csimpl.
  - rewrite list_lookup_middle by done. csimpl.
    rewrite filter_cons_True; [done|]. by rewrite Hk.
  - rewrite filter_cons_False; [done|]. rewrite Hk. by intros [].
Qed.

Lemma missing_rows T1 T2 :
  omap (λ i, (T1 ++ T2) !! i) (missing (length T1) (key <$> T2))
  = filter (λ r, key r = None) T2.
Proof.
  revert T1. induction T2 as [|r T2 IH]; intros T1; [done|].
  rewrite fmap_cons, missing_cons, omap_app.
  specialize (IH (T1 ++ [r])).
  rewrite length_app, <- (assoc_L (++)), <- cons_middle in IH.
  cbn [length] in IH. rewrite Nat.add_1_r in IH. rewrite IH.
  destruct (key r) as [k|] eqn:Hk; csimpl.
  - rewrite filter_cons_False; [done|]. by rewrite Hk.
  - rewrite list_lookup_middle by done. csimpl.
    rewrite filter_cons_True; [done|]. by rewrite Hk.
Qed.

Lemma present_key T1 T2 p :
  p ∈ present (length T1) (key <$> T2) →
  ∃ r, (T1 ++ T2) !! p.1 = Some r ∧ key r = Some p.2.
Proof.
  revert T1. induction T2 as [|r T2 IH]; intros T1.
  { by intros ?%elem_of_nil. }
  rewrite fmap_cons, present_cons, elem_of_app. intros [Hp|Hp].
  - destruct (key r) as [k|] eqn:Hk; csimpl in Hp; [|by apply elem_of_nil in Hp].
    apply list_elem_of_singleton in Hp as ->. exists r.
    by rewrite list_lookup_middle.
  - specialize (IH (T1 ++ [r])).
    rewrite length_app, <- (assoc_L (++)), <- cons_middle in IH.
    cbn [length] in IH. rewrite Nat.add_1_r in IH. by apply IH.
Qed.
End Nargsort.

Section SortRows.
Context {K R : Type} `{EqDecision K} (lt : K → K → bool) `{!Npy.WeakOrder lt}.
Context (key : R → option K).
Implicit Types (T : list R) (q : list (nat * K)) (ascending : bool).
Local Abbreviation present := Npy.present.
Local Abbreviation missing := Npy.missing.
Local Abbreviation by_key := (Npy.by_key lt).
Local Abbreviation ordered := (Npy.ordered lt).
Local Abbreviation row_at := Npy.row_at.

Global Instance by_key_order : Npy.WeakOrder by_key.
Proof.
  split; unfold Npy.by_key.
  - intros x. apply (Npy.lt_irrefl (lt:=lt)).
  - intros x y z. apply (Npy.lt_trans (lt:=lt)).
  - intros x y z. apply (Npy.nlt_trans (lt:=lt)).
Qed.

Lemma nargsort_ordered ascending items :
  Npy.nargsort lt ascending items
  = (ordered ascending (present 0 items)).*1 ++ missing 0 items.
Proof.
  unfold Npy.nargsort, Npy.ordered. destruct ascending; [done|].
  by rewrite fmap_reverse.
Qed.

Lemma take_rows_nargsort T ascending :
  Npy.take_rows T (Npy.nargsort lt ascending (key <$> T))
  = omap (row_at T) (ordered ascending (present 0 (key <$> T)))
    ++ filter (λ r, key r = None) T.
Proof.
  rewrite nargsort_ordered. unfold Npy.take_rows. rewrite omap_app. f_equal.
  - generalize (ordered ascending (present 0 (key <$> T))).
    intros q. induction q as [|p q IH]; [done|]. csimpl. by rewrite IH.
  - apply (missing_rows key [] T).
Qed.

Lemma ordered_Permutation ascending q : ordered ascending q ≡ₚ q.
Proof.
  unfold Npy.ordered. destruct ascending.
  - apply (aquicksort_Permutation by_key).
  - by rewrite reverse_Permutation, (aquicksort_Permutation by_key),
      reverse_Permutation.
Qed.

Lemma ordered_sorted ascending q :
  StronglySorted (if ascending then Npy.le by_key else flip (Npy.le by_key))
    (ordered ascending q).
Proof.
  unfold Npy.ordered. destruct ascending.
  - apply (aquicksort_sorted by_key).
  - apply (StronglySorted_reverse (flip (Npy.le by_key))).
    apply (aquicksort_sorted by_key).
Qed.

Lemma ordered_stable ascending q (x : nat * K) :
  length q ≤ 16 →
  filter (λ y : nat * K, Npy.tied by_key x y) (ordered ascending q)
  = filter (λ y : nat * K, Npy.tied by_key x y) q.
Proof.
  intros Hlen. unfold Npy.ordered. destruct ascending.
  - rewrite aquicksort_small by done. apply (insertion_sort_stable by_key).
  - rewrite filter_reverse, aquicksort_small by (by rewrite length_reverse).
    rewrite (insertion_sort_stable by_key), filter_reverse.
    apply reverse_involutive.
Qed.

Lemma rows_key T q :
  (∀ p, p ∈ q → p ∈ present 0 (key <$> T)) →
  key <$> omap (row_at T) q = Some <$> q.*2.
Proof.
  induction q as [|p q IH]; intros Hq; [done|].
  destruct (present_key key [] T p) as (r & Hr & Hk); [apply Hq; left|].
  csimpl. unfold Npy.row_at at 1. csimpl in Hr. rewrite Hr. csimpl.
  rewrite Hk, IH; [done|]. intros p' Hp'. apply Hq. by right.
Qed.

Lemma rows_filter T q k :
  (∀ p, p ∈ q → p ∈ present 0 (key <$> T)) →
  filter (λ r, key r = Some k) (omap (row_at T) q)
  = omap (row_at T) (filter (λ p, p.2 = k) q).
Proof.
  induction q as [|p q IH]; intros Hq; [done|].
  destruct (present_key key [] T p) as (r & Hr & Hk); [apply Hq; left|].
  assert (∀ p', p' ∈ q → p' ∈ present 0 (key <$> T)) as Hq'
    by (intros p' Hp'; apply Hq; by right).
  csimpl. unfold Npy.row_at at 1. csimpl in Hr. rewrite Hr. csimpl.
  rewrite !filter_cons, IH by done.
  destruct (decide (p.2 = k)) as [Hpk|Hpk].
  - rewrite decide_True by congruence. csimpl.
    unfold Npy.row_at at 2. by rewrite Hr.
  - rewrite decide_False by congruence. done.
Qed.

Lemma present_row_at T :
  omap (row_at T) (present 0 (key <$> T)) = filter (λ r, is_Some (key r)) T.
Proof. exact (present_rows key [] T). Qed.

(** The sorted rows are the rows. *)
Lemma sorted_rows_Permutation T ascending :
  Npy.take_rows T (Npy.nargsort lt ascending (key <$> T)) ≡ₚ T.
Proof.
  rewrite take_rows_nargsort, ordered_Permutation, present_row_at.
  rewrite <- (filter_app_complement (λ r, is_Some (key r)) T) at 3.
  f_equiv. apply reflexive_eq, list_filter_iff. intros r.
  by rewrite eq_None_not_Some.
Qed.

Lemma present_snd s (items : list (option K)) :
  (present s items).*2 = omap id items.
Proof.
  revert s. induction items as [|x items IH]; intros s; [done|].
  rewrite present_cons, fmap_app, IH. by destruct x.
Qed.

Lemma length_present s T :
  length (present s (key <$> T)) = length (filter (λ r, is_Some (key r)) T).
Proof.
  revert s. induction T as [|r T IH]; intros s; [done|].
  rewrite fmap_cons, present_cons, length_app, IH.
  destruct (key r) as [k|] eqn:Hk; csimpl.
  - rewrite filter_cons_True; [done|]. by rewrite Hk.
  - rewrite filter_cons_False; [done|]. rewrite Hk. by intros [].
Qed.

Lemma filter_all (P : R → Prop) `{!∀ r, Decision (P r)} (l : list R) :
  Forall P l → filter P l = l.
Proof.
  induction 1 as [|r l Hr _ IH]; [done|]. by rewrite filter_cons_True, IH.
Qed.

Lemma filter_none (P : R → Prop) `{!∀ r, Decision (P r)} (l : list R) :
  Forall (λ r, ¬ P r) l → filter P l = [].
Proof.
  induction 1 as [|r l Hr _ IH]; [done|]. by rewrite filter_cons_False.
Qed.

Lemma rows_present T q :
  (∀ p, p ∈ q → p ∈ present 0 (key <$> T)) →
  Forall (λ r, is_Some (key r)) (omap (row_at T) q).
Proof.
  intros Hq.
  assert (Forall is_Some (key <$> omap (row_at T) q)) as Hall.
  { rewrite rows_key by done. apply Forall_fmap, Forall_true. by eexists. }
  pose proof (proj1 (Forall_forall _ _) Hall) as Hall'.
  apply Forall_forall. intros r Hr. apply Hall'. by apply list_elem_of_fmap_2.
Qed.

Lemma ordered_elem_of ascending q p : p ∈ ordered ascending q → p ∈ q.
Proof. by rewrite ordered_Permutation. Qed.

(** The keys of the sorted rows: the present ones in the order asked
    for, then the missing ones. *)
Lemma sorted_rows_keys T ascending :
  key <$> Npy.take_rows T (Npy.nargsort lt ascending (key <$> T))
  = (Some <$> (ordered ascending (present 0 (key <$> T))).*2)
    ++ (key <$> filter (λ r, key r = None) T).
Proof.
  rewrite take_rows_nargsort, fmap_app, rows_key; [done|].
  intros p. apply ordered_elem_of.
Qed.

(** Up to sixteen present keys, rows with equal keys keep their order. *)
Lemma sorted_rows_stable T ascending (c : option K) :
  (∀ x y, lt x y = false → lt y x = false → x = y) →
  length (filter (λ r, is_Some (key r)) T) ≤ 16 →
  filter (λ r, key r = c) (Npy.take_rows T (Npy.nargsort lt ascending (key <$> T)))
  = filter (λ r, key r = c) T.
Proof.
  intros Hanti Hlen. rewrite take_rows_nargsort, filter_app.
  set (q := ordered ascending (present 0 (key <$> T))).
  assert (∀ p, p ∈ q → p ∈ present 0 (key <$> T)) as Hq
    by (intros p; apply ordered_elem_of).
  destruct c as [k|].
  - rewrite (filter_none _ (filter _ T)), app_nil_r; cycle 1.
    { apply Forall_forall. intros r [Hr _]%list_elem_of_filter. congruence. }
    rewrite rows_filter by done.
    assert (∀ l : list (nat * K),
              filter (λ p, p.2 = k) l
              = filter (λ p : nat * K, Npy.tied by_key (0, k) p) l) as Htied.
    { intros l. apply list_filter_iff. intros p.
      rewrite Is_true_true, (tied_spec by_key). unfold Npy.le, Npy.by_key. csimpl.
      split; [intros ->|intros [??]; by apply Hanti].
      split; apply (Npy.lt_irrefl (lt:=lt)). }
    unfold q. rewrite Htied, ordered_stable by (by rewrite length_present).
    rewrite <- Htied, <- rows_filter by done. rewrite present_row_at.
    apply list_filter_filter_l. intros r ->. by eexists.
  - rewrite (filter_none _ (omap _ _)); cycle 1.
    { eapply Forall_impl; [by apply rows_present|]. intros r [? Hr]. congruence. }
    apply list_filter_filter_l. done.
Qed.

(** Up to sixteen present keys, sorting what is sorted changes nothing. *)
Lemma sorted_rows_idempotent T :
  length (filter (λ r, is_Some (key r)) T) ≤ 16 →
  let S := Npy.take_rows T (Npy.nargsort lt true (key <$> T)) in
  Npy.take_rows S (Npy.nargsort lt true (key <$> S)) = S.
Proof.
  intros Hlen S.
  assert (S = omap (row_at T) (ordered true (present 0 (key <$> T)))
              ++ filter (λ r, key r = None) T) as HS
    by apply take_rows_nargsort.
  set (P := omap (row_at T) (ordered true (present 0 (key <$> T)))) in *.
  set (N := filter (λ r, key r = None) T) in *.
  assert (Forall (λ r, is_Some (key r)) P) as HP
    by (apply rows_present; intros p; apply ordered_elem_of).
  assert (Forall (λ r, key r = None) N) as HN.
  { apply Forall_forall. by intros r [Hr _]%list_elem_of_filter. }
  assert (filter (λ r, is_Some (key r)) S = P) as HSP.
  { rewrite HS, filter_app, (filter_all _ P), (filter_none _ N), app_nil_r; [done| |done].
    eapply Forall_impl; [exact HN|]. intros r -> []. done. }
  assert (filter (λ r, key r = None) S = N) as HSN.
  { rewrite HS, filter_app, (filter_none _ P), (filter_all _ N); [done|done|].
    eapply Forall_impl; [exact HP|]. intros r [? Hr]. congruence. }
  rewrite take_rows_nargsort, HSN. unfold Npy.ordered.
  rewrite aquicksort_small; cycle 1.
  { rewrite length_present, HSP. unfold P.
    rewrite <- (length_present 0 T) in Hlen.
    rewrite <- (Permutation_length (ordered_Permutation true (present 0 (key <$> T)))) in Hlen.
    etrans; [|exact Hlen].
    clear. generalize (ordered true (present 0 (key <$> T))).
    intros q. induction q as [|p q IH]; csimpl; [done|].
    destruct (row_at T p); csimpl; lia. }
  rewrite (insertion_sort_sorted_id by_key); [by rewrite present_row_at, HSP|].
  assert (StronglySorted (Npy.le lt) (present 0 (key <$> S)).*2) as Hsorted.
  { rewrite present_snd. unfold S. rewrite sorted_rows_keys, omap_app.
    fold N. assert (omap id (key <$> N) = []) as ->.
    { clear -HN. induction HN as [|r N Hr _ IH]; [done|]. csimpl. by rewrite Hr. }
    rewrite app_nil_r.
    assert (∀ l : list K, omap id (Some <$> l) = l) as ->.
    { intros l. induction l as [|x l IH]; [done|]. csimpl. by rewrite IH. }
    apply (StronglySorted_fmap snd (Npy.le by_key)); [done|].
    apply (ordered_sorted true). }
  clear -Hsorted. induction (present 0 (key <$> S)) as [|p q IH]; [constructor|].
  rewrite fmap_cons in Hsorted. apply StronglySorted_cons in Hsorted as [Hp Hq].
  constructor; [by apply IH|]. by rewrite Forall_fmap in Hp.
Qed.
End SortRows.

(** ** The two orders the script sorts by *)

Lemma ltb_leb (s1 s2 : string) : String.ltb s1 s2 = negb (String.leb s2 s1).
Proof.
  unfold String.ltb, String.leb. rewrite (String.compare_antisym s2 s1).
  by destruct (String.compare s1 s2).
Qed.

Lemma leb_le (s1 s2 : string) : String.leb s1 s2 = true ↔ String.le s1 s2.
Proof. unfold String.le. by rewrite Is_true_true. Qed.

Global Instance string_order : Npy.WeakOrder String.ltb.
Proof.
  split.
  - intros s. rewrite ltb_leb, negb_false_iff, leb_le. done.
  - intros x y z. rewrite !ltb_leb, !negb_true_iff.
    intros Hyx Hzy. apply not_true_iff_false. rewrite leb_le. intros Hzx.
    apply not_true_iff_false in Hzy. apply Hzy. rewrite leb_le.
    destruct (total String.le x y) as [Hxy|Hxy].
    + by etrans.
    + apply leb_le in Hxy. congruence.
  - intros x y z. rewrite !ltb_leb, !negb_false_iff, !leb_le.
    intros Hyx Hzy. by etrans.
Qed.

Lemma string_tie (x y : string) :
  String.ltb x y = false → String.ltb y x = false → x = y.
Proof.
  rewrite !ltb_leb, !negb_false_iff. intros ??. by apply String.leb_antisym.
Qed.

Global Instance nat_order : Npy.WeakOrder Nat.ltb.
Proof.
  split.
  - intros x. apply Nat.ltb_irrefl.
  - intros x y z. rewrite !Nat.ltb_lt. lia.
  - intros x y z. rewrite !Nat.ltb_ge. lia.
Qed.

(** ** The sorter *)

Lemma all_missing_sorted (l : list cell) :
  Forall (λ c, c = NaN) l → StronglySorted cell_le l.
Proof.
  induction 1 as [|c l -> Hl IH]; constructor; [done|].
  eapply Forall_impl; [exact Hl|]. by intros c ->.
Qed.

Lemma sort_values_sorted (col : row → cell) (T : table) :
  StronglySorted cell_le (col <$> sort_values col T).
Proof.
  unfold sort_values. rewrite (sorted_rows_keys String.ltb col).
  apply StronglySorted_app. split; [|split].
  - intros x y _ (r & -> & [Hr _]%list_elem_of_filter)%list_elem_of_fmap.
    rewrite Hr. by destruct x.
  - apply (StronglySorted_fmap Some (Npy.le String.ltb)).
    { intros a b. unfold Npy.le. by rewrite ltb_leb, negb_false_iff. }
    apply (StronglySorted_fmap snd (Npy.le (Npy.by_key String.ltb))); [done|].
    apply (ordered_sorted String.ltb true).
  - apply all_missing_sorted, Forall_fmap, Forall_forall.
    by intros r [Hr _]%list_elem_of_filter.
Qed.

(** C2.  Sorter contract, as the code has it: with the option "None" the
    table is returned unchanged; with a column, the result is the same
    rows rearranged so that the column is non-decreasing, the rows
    without a value last; and when at most sixteen rows have a value in
    the column, rows with equal values keep their relative order and
    sorting a second time changes nothing. *)
Theorem sort_dropdown_contract (T : table) (sort_column : sort_option)
    (col : row → cell) :
  sort_dropdown Sort_None T = T ∧
  (column_of sort_column = Some col →
   sort_dropdown sort_column T ≡ₚ T ∧
   StronglySorted cell_le (col <$> sort_dropdown sort_column T) ∧
   (length (filter (λ r, is_Some (col r)) T) ≤ 16 →
    (∀ c : cell, filter (λ r, col r = c) (sort_dropdown sort_column T)
                 = filter (λ r, col r = c) T) ∧
    sort_dropdown sort_column (sort_dropdown sort_column T)
    = sort_dropdown sort_column T)).
Proof.
  split; [done|]. intros Hcol. unfold sort_dropdown. rewrite Hcol.
  split; [apply (sorted_rows_Permutation String.ltb col)|].
  split; [apply sort_values_sorted|]. intros Hlen. split.
  - intros c. apply (sorted_rows_stable String.ltb col); [apply string_tie|done].
  - by apply (sorted_rows_idempotent String.ltb col).
Qed.

Lemma sort_dropdown_contract_witness :
  column_of Sort_Condition = Some Condition ∧
  length (filter (λ r, is_Some (Condition r)) sample_table) ≤ 16 ∧
  sort_dropdown Sort_None sample_table = sample_table ∧
  sort_dropdown Sort_Condition sample_table ≡ₚ sample_table ∧
  StronglySorted cell_le (Condition <$> sort_dropdown Sort_Condition sample_table) ∧
  (∀ c : cell, filter (λ r, Condition r = c) (sort_dropdown Sort_Condition sample_table)
               = filter (λ r, Condition r = c) sample_table) ∧
  sort_dropdown Sort_Condition (sort_dropdown Sort_Condition sample_table)
  = sort_dropdown Sort_Condition sample_table.
Proof.
  assert (H1 : column_of Sort_Condition = Some Condition) by reflexivity.
  assert (H2 : length (filter (λ r, is_Some (Condition r)) sample_table) ≤ 16)
    by (vm_compute; lia).
  destruct (sort_dropdown_contract sample_table Sort_Condition Condition)
    as [Hnone Hcol].
  destruct (Hcol H1) as (Hperm & Hsorted & Hsmall).
  destruct (Hsmall H2) as [Hstable Hidem].
  exact (conj H1 (conj H2 (conj Hnone (conj Hperm (conj Hsorted (conj Hstable Hidem)))))).
Defined.

(** On seventeen rows of one condition the sort by condition moves rows
    with equal keys past one another, and sorting its result again gives
    back the first order: the sort is neither stable nor idempotent. *)
Lemma sort_dropdown_reorders_ties :
  let sorted := sort_dropdown Sort_Condition seventeen_microbes in
  Forall (λ r, Condition r = Some "Obesity") seventeen_microbes ∧
  Microbe <$> seventeen_microbes
  = Some <$> ["N00"; "N01"; "N02"; "N03"; "N04"; "N05"; "N06"; "N07"; "N08";
              "N09"; "N10"; "N11"; "N12"; "N13"; "N14"; "N15"; "N16"] ∧
  Microbe <$> sorted
  = Some <$> ["N00"; "N14"; "N13"; "N12"; "N11"; "N10"; "N09"; "N15"; "N08";
              "N06"; "N05"; "N04"; "N03"; "N02"; "N01"; "N07"; "N16"] ∧
  sort_dropdown Sort_Condition sorted = seventeen_microbes ∧
  sort_dropdown Sort_Condition sorted ≠ sorted.
Proof.
  split; [by repeat constructor|]. split; [reflexivity|].
  split; [reflexivity|]. split; [reflexivity|].
  intros H. vm_compute in H. discriminate H.
Qed.

(** ** The aggregator *)

Lemma unique_from_ext {A} `{EqDecision A} (seen seen' l : list A) :
  (∀ x, x ∈ seen ↔ x ∈ seen') → unique_from seen l = unique_from seen' l.
Proof.
  revert seen seen'. induction l as [|y l IH]; intros seen seen' Hs; csimpl; [done|].
  destruct (decide (y ∈ seen)) as [Hy|Hy].
  - rewrite decide_True by (by apply Hs). by apply IH.
  - rewrite decide_False by (by rewrite <- Hs). f_equal. apply IH.
    intros x. rewrite !elem_of_cons, Hs. done.
Qed.

Lemma NoDup_unique_from {A} `{EqDecision A} (seen l : list A) :
  NoDup (unique_from seen l).
Proof.
  revert seen. induction l as [|y l IH]; intros seen; csimpl; [constructor|].
  destruct (decide (y ∈ seen)); [apply IH|].
  constructor; [|apply IH]. rewrite elem_of_unique_from. set_solver.
Qed.

Lemma bump_keys s counts :
  (bump s counts).*1
  = if decide (s ∈ counts.*1) then counts.*1 else counts.*1 ++ [s].
Proof.
  induction counts as [|[k c] counts IH]; [done|].
  cbn [bump]. destruct (decide (k = s)) as [->|Hne]; rewrite !fmap_cons; cbn [fst].
  - rewrite decide_True by set_solver. done.
  - rewrite IH. destruct (decide (s ∈ counts.*1)).
    + rewrite decide_True by set_solver. done.
    + rewrite decide_False by set_solver. done.
Qed.

Lemma bump_sum s counts :
  sum_list_with snd (bump s counts) = S (sum_list_with snd counts).
Proof.
  induction counts as [|[k c] counts IH]; csimpl; [done|].
  destruct (decide (k = s)); csimpl; [done|]. rewrite IH. lia.
Qed.

Lemma bump_tally s s' counts :
  tally s' (bump s counts)
  = tally s' counts + (if decide (s = s') then 1 else 0).
Proof.
  unfold tally. induction counts as [|[k c] counts IH]; cbn [bump].
  - rewrite filter_cons, filter_nil. cbn [fst].
    by destruct (decide (s = s')).
  - destruct (decide (k = s)) as [->|Hne].
    + rewrite !filter_cons. cbn [fst]. destruct (decide (s = s')); csimpl; lia.
    + rewrite !(filter_cons _ (k, c)). cbn [fst].
      destruct (decide (k = s')); cbn [sum_list_with snd]; rewrite IH; lia.
Qed.

Lemma count_table_from (col : list cell) (counts : list (string * nat)) :
  let result := foldl (λ counts c, from_option (λ s, bump s counts) counts c)
                  counts col in
  result.*1 = counts.*1 ++ unique_from counts.*1 (omap id col) ∧
  sum_list_with snd result = sum_list_with snd counts + length (omap id col) ∧
  ∀ s, tally s result = tally s counts + length (filter (λ c, c = Some s) col).
Proof.
  revert counts. induction col as [|c col IH]; intros counts; csimpl.
  { split; [by rewrite app_nil_r|]. split; [lia|]. intros s. lia. }
  destruct c as [s|]; csimpl.
  - destruct (IH (bump s counts)) as (Hkeys & Hsum & Htally).
    split; [|split].
    + rewrite Hkeys, bump_keys.
      destruct (decide (s ∈ counts.*1)) as [Hin|Hnin]; [done|].
      rewrite <- (assoc_L (++)). csimpl. do 2 f_equal.
      apply unique_from_ext. intros x. set_solver.
    + rewrite Hsum, bump_sum. lia.
    + intros s'. rewrite Htally, bump_tally, filter_cons.
      destruct (decide (s = s')) as [->|Hne].
      * rewrite decide_True by done. csimpl. lia.
      * rewrite decide_False by congruence. lia.
  - destruct (IH counts) as (Hkeys & Hsum & Htally).
    split; [done|]. split; [done|]. intros s. rewrite Htally, filter_cons.
    by rewrite decide_False.
Qed.

Lemma tally_NoDup s n (counts : list (string * nat)) :
  NoDup counts.*1 → (s, n) ∈ counts → tally s counts = n.
Proof.
  unfold tally. induction counts as [|[k c] counts IH]; csimpl.
  { by intros _ ?%elem_of_nil. }
  intros [Hk Hnd]%NoDup_cons [[= <- <-]|Hin]%elem_of_cons.
  - rewrite filter_cons_True by done. csimpl.
    rewrite filter_none; [csimpl; lia|].
    apply Forall_forall. intros [k' c'] Hin' Heq. csimpl in Heq. subst k'.
    apply Hk. by apply (list_elem_of_fmap_2 fst) in Hin'.
  - rewrite filter_cons_False; [by apply IH|]. csimpl. intros Heq. subst k.
    apply Hk. by apply (list_elem_of_fmap_2 fst) in Hin.
Qed.

Lemma count_table_keys (col : list cell) :
  (count_table col).*1 = unique (omap id col).
Proof. apply (count_table_from col []). Qed.

Lemma count_table_count (col : list cell) (s : string) (n : nat) :
  (s, n) ∈ count_table col → n = length (filter (λ c, c = Some s) col).
Proof.
  intros Hin. destruct (count_table_from col []) as (_ & _ & Htally).
  rewrite <- (tally_NoDup s n (count_table col)); [apply Htally| |done].
  rewrite count_table_keys. apply NoDup_unique_from.
Qed.


Lemma StronglySorted_fmap_inv {A B} (f : A → B) (R1 : relation A) (R2 : relation B)
    (l : list A) :
  (∀ x y, R2 (f x) (f y) → R1 x y) →
  StronglySorted R2 (f <$> l) → StronglySorted R1 l.
Proof.
  intros HR. induction l as [|x l IH]; [constructor|].
  rewrite fmap_cons. intros [Hx Hl]%StronglySorted_cons.
  constructor; [by apply IH|]. rewrite Forall_fmap in Hx.
  eapply Forall_impl; [exact Hx|]. intros y. apply HR.
Qed.

Lemma length_filter_fmap {A B} (f : A → B) (P : B → Prop)
    `{!∀ y, Decision (P y)} `{!∀ x, Decision (P (f x))} (l : list A) :
  length (filter P (f <$> l)) = length (filter (λ x, P (f x)) l).
Proof.
  induction l as [|x l IH]; [done|]. rewrite fmap_cons, !filter_cons.
  repeat case_decide; csimpl; try done; by rewrite IH.
Qed.

Lemma length_omap_id {A} (l : list (option A)) :
  length (omap id l) = length (filter is_Some l).
Proof.
  induction l as [|[x|] l IH]; [done| |].
  - rewrite filter_cons_True by (by eexists). csimpl. by rewrite IH.
  - rewrite filter_cons_False by (by intros []). done.
Qed.

Lemma value_counts_take_rows (col : list cell) :
  value_counts col
  = Npy.take_rows (count_table col)
      (Npy.nargsort Nat.ltb false (count_key <$> count_table col)).
Proof. unfold value_counts. by rewrite <- list_fmap_compose. Qed.

Lemma value_counts_Permutation (col : list cell) :
  value_counts col ≡ₚ count_table col.
Proof.
  rewrite value_counts_take_rows. apply (sorted_rows_Permutation Nat.ltb count_key).
Qed.

Lemma value_counts_sorted (col : list cell) :
  StronglySorted (λ x y : string * nat, y.2 ≤ x.2) (value_counts col).
Proof.
  apply (StronglySorted_fmap_inv count_key _
           (λ x y, from_option (λ a, from_option (λ b, b ≤ a) True y) True x)).
  { intros x y. done. }
  rewrite value_counts_take_rows, (sorted_rows_keys Nat.ltb count_key).
  rewrite filter_none, app_nil_r by (by apply Forall_true).
  apply (StronglySorted_fmap Some (flip (Npy.le Nat.ltb))).
  { intros a b. unfold flip, Npy.le. csimpl. rewrite Nat.ltb_ge. done. }
  apply (StronglySorted_fmap snd (flip (Npy.le (Npy.by_key Nat.ltb)))); [done|].
  apply (ordered_sorted Nat.ltb false).
Qed.



(** * Further properties *)

(** ** The exceptions of the matcher *)

Lemma any_query_raise (ref : cell) (uploaded_microbes : list cell) e :
  any_query ref uploaded_microbes = Raise e → e = lower_error.
Proof.
  induction uploaded_microbes as [|q qs IH]; csimpl; [done|].
  destruct ref as [ref|], q as [q|]; csimpl; try (by intros [= <-]).
  destruct (Py.startswith _ _); [done|]. exact IH.
Qed.

Lemma working_rows_raise (reference_df : table) (uploaded_microbes : list cell) e :
  working_rows reference_df uploaded_microbes = Raise e → e = lower_error.
Proof.
  induction reference_df as [|r rest IH]; csimpl; [done|].
  destruct (any_query _ _) eqn:Hq; csimpl.
  - destruct (working_rows rest _); csimpl; [done|]. intros [= <-]. by apply IH.
  - intros [= <-]. by eapply any_query_raise.
Qed.

Lemma matched_for_raise (q : cell) (refs : list cell) e :
  matched_for q refs = Raise e → e = lower_error.
Proof.
  induction refs as [|ref refs IH]; csimpl; [done|].
  destruct ref as [ref|], q as [q|]; csimpl; try (by intros [= <-]).
  destruct (matched_for _ _); csimpl; [done|]. intros [= <-]. by apply IH.
Qed.

Lemma matched_loop_raise (uploaded_microbes refs : list cell) acc e :
  matched_loop uploaded_microbes refs acc = Raise e → e = lower_error.
Proof.
  revert acc. induction uploaded_microbes as [|q qs IH]; intros acc; csimpl; [done|].
  destruct (matched_for _ _) eqn:Hm; csimpl; [apply IH|].
  intros [= <-]. by eapply matched_for_raise.
Qed.

Lemma any_reference_raise (m : cell) (refs : list cell) e :
  any_reference m refs = Raise e → e = lower_error.
Proof.
  induction refs as [|ref refs IH]; csimpl; [done|].
  destruct ref as [ref|], m as [m|]; csimpl; try (by intros [= <-]).
  destruct (Py.startswith _ _); [done|]. exact IH.
Qed.

Lemma unmatched_of_raise (uploaded_microbes refs : list cell) e :
  unmatched_of uploaded_microbes refs = Raise e → e = lower_error.
Proof.
  induction uploaded_microbes as [|m ms IH]; csimpl; [done|].
  destruct (any_reference _ _) eqn:Hq; csimpl.
  - destruct (unmatched_of ms _); csimpl; [done|]. intros [= <-]. by apply IH.
  - intros [= <-]. by eapply any_reference_raise.
Qed.

Lemma matcher_raise (reference_df : table) (uploaded_microbes : list cell) e :
  matcher reference_df uploaded_microbes = Raise e → e = lower_error.
Proof.
  unfold matcher.
  destruct (working_rows _ _) eqn:Hw; csimpl;
    [|intros [= <-]; by eapply working_rows_raise].
  destruct (matched_loop _ _ _) eqn:Hm; csimpl;
    [|intros [= <-]; by eapply matched_loop_raise].
  destruct (unmatched_of _ _) eqn:Hu; csimpl; [done|].
  intros [= <-]. by eapply unmatched_of_raise.
Qed.

Lemma working_rows_missing_reference (reference_df : table)
    (uploaded_microbes : list cell) :
  Exists (λ r, Microbe r = NaN) reference_df →
  uploaded_microbes ≠ [] →
  working_rows reference_df uploaded_microbes = Raise lower_error.
Proof.
  intros Hex Hqs. induction Hex as [r rest Hr|r rest Hex IH]; csimpl.
  - rewrite Hr. by destruct uploaded_microbes.
  - destruct (any_query _ _) eqn:Hq; csimpl.
    + by rewrite IH.
    + f_equal. by eapply any_query_raise.
Qed.

Lemma matched_for_missing_query (refs : list cell) :
  refs ≠ [] → matched_for NaN refs = Raise lower_error.
Proof. destruct refs as [|[ref|] refs]; by csimpl. Qed.

Lemma matched_loop_missing_query (uploaded_microbes refs : list cell) acc :
  NaN ∈ uploaded_microbes → refs ≠ [] →
  matched_loop uploaded_microbes refs acc = Raise lower_error.
Proof.
  intros Hin Hrefs. revert acc.
  induction uploaded_microbes as [|q qs IH]; intros acc; [by apply elem_of_nil in Hin|].
  csimpl. destruct (decide (q = NaN)) as [->|Hq].
  - by rewrite matched_for_missing_query.
  - apply elem_of_cons in Hin as [?|Hin]; [done|].
    destruct (matched_for _ _) eqn:Hm; csimpl; [by apply IH|].
    f_equal. by eapply matched_for_raise.
Qed.

Lemma unique_nil {A} `{EqDecision A} (l : list A) : unique l = [] → l = [].
Proof.
  destruct l as [|x l]; [done|]. unfold unique. csimpl.
  by destruct (decide (x ∈ [])) as [?%elem_of_nil|].
Qed.

Lemma matcher_missing_query (reference_df : table) (uploaded_microbes : list cell) :
  NaN ∈ uploaded_microbes → reference_df ≠ [] →
  matcher reference_df uploaded_microbes = Raise lower_error.
Proof.
  intros Hin Href. unfold matcher.
  destruct (working_rows _ _) eqn:Hw; csimpl;
    [|f_equal; by eapply working_rows_raise].
  rewrite matched_loop_missing_query; [done..|].
  intros Hu%unique_nil. by destruct reference_df.
Qed.

Lemma matcher_missing_reference (reference_df : table) (uploaded_microbes : list cell) :
  Exists (λ r, Microbe r = NaN) reference_df →
  uploaded_microbes ≠ [] →
  matcher reference_df uploaded_microbes = Raise lower_error.
Proof.
  intros Hex Hqs. unfold matcher.
  by rewrite working_rows_missing_reference.
Qed.

(** When the matcher returns, nothing it looked at was missing. *)
Lemma matcher_ok_present (reference_df : table) (uploaded_microbes : list cell) x :
  matcher reference_df uploaded_microbes = Ok x →
  reference_df = [] ∨ uploaded_microbes = [] ∨
  (Forall (λ r, is_Some (Microbe r)) reference_df ∧ Forall is_Some uploaded_microbes).
Proof.
  intros Hm.
  destruct (decide (reference_df = [])) as [|Href]; [by left|].
  destruct (decide (uploaded_microbes = [])) as [|Hqs]; [by right; left|].
  right; right. split.
  - apply Forall_forall. intros r Hr.
    destruct (Microbe r) eqn:E; [done|].
    rewrite matcher_missing_reference in Hm; [done| |done].
    apply Exists_exists. eauto.
  - apply Forall_forall. intros [q|] Hq; [done|].
    by rewrite matcher_missing_query in Hm.
Qed.

(** ** How a run ends *)

Lemma getitem_raise (df : dataframe) (name : string) e :
  getitem df name = Raise e → e = KeyError name ∧ has_column df name = false.
Proof.
  induction df as [|[n c] df IH]; csimpl; [by intros [= <-]|].
  case_decide as Hn; [done|]. intros [-> Hc]%IH. split; [done|].
  unfold has_column in *. csimpl.
  apply bool_decide_eq_false. apply bool_decide_eq_false in Hc.
  rewrite elem_of_cons. naive_solver.
Qed.

Lemma str_strip_cases (col : list cell) :
  str_strip col = Ok (strip_cell <$> col) ∨
  (col ≠ [] ∧ Forall (λ c, c = NaN) col ∧ str_strip col = Raise accessor_error).
Proof.
  destruct col as [|c col]; [by left|]. unfold str_strip.
  destruct (forallb _ _) eqn:E; [right|by left].
  split; [done|]. split; [|done].
  apply Is_true_true, forallb_True in E. eapply Forall_impl; [exact E|].
  intros x Hx. by apply bool_decide_unpack in Hx.
Qed.

Lemma read_queries_outcome (input_df : dataframe) :
  (∃ e, read_queries input_df = ([], inl (Raised e)) ∧
        (e = KeyError "Microbe" ∧ has_column input_df "Microbe" = false ∨
         e = accessor_error ∧ ∃ col, getitem input_df "Microbe" = Ok col ∧
           col ≠ [] ∧ Forall (λ c, c = NaN) col)) ∨
  (∃ col, getitem input_df "Microbe" = Ok col ∧
          str_strip col = Ok (strip_cell <$> col) ∧
          read_queries input_df = ([], inr (unique (strip_cell <$> col)))).
Proof.
  destruct (getitem input_df "Microbe") as [col|e] eqn:Hg.
  - destruct (str_strip_cases col) as [Hs|(Hne & Hall & Hs)].
    + right. exists col. split; [done|]. split; [done|].
      by eapply read_queries_ok.
    + left. exists accessor_error. split; [|right; eauto].
      unfold read_queries. rewrite Hg. csimpl. by rewrite Hs.
  - left. apply getitem_raise in Hg as [-> Hc]. exists (KeyError "Microbe").
    split; [|by left]. by apply read_queries_missing.
Qed.

Lemma upload_branch_outcome (reference_df : table) (input_df : dataframe) :
  (∃ e, upload_branch reference_df (Some input_df) = ([], inl (Raised e)) ∧
        (e = KeyError "Microbe" ∧ has_column input_df "Microbe" = false ∨
         e = accessor_error ∨ e = lower_error)) ∨
  upload_branch reference_df (Some input_df)
  = ([StError no_match_message], inl Stopped) ∨
  (∃ uploaded_microbes working_df matched_microbes unmatched,
     read_queries input_df = ([], inr uploaded_microbes) ∧
     matcher reference_df uploaded_microbes
     = Ok (working_df, matched_microbes, unmatched) ∧
     working_df ≠ [] ∧
     upload_branch reference_df (Some input_df)
     = (upload_notices working_df matched_microbes unmatched, inr working_df)).
Proof.
  unfold upload_branch.
  destruct (read_queries_outcome input_df) as [(e & -> & He)|(col & Hg & Hs & ->)].
  { left. exists e. split; [done|]. naive_solver. }
  csimpl.
  destruct (matcher _ _) as [[[w m] u]|e] eqn:Hm; csimpl.
  - destruct (decide (w = [])) as [->|Hw].
    + right; left. by csimpl.
    + rewrite (bool_decide_eq_false_2 (w = [])) by done. csimpl.
      right; right. exists (unique (strip_cell <$> col)), w, m, u.
      split; [done|]. split; [done|]. split; [done|].
      unfold upload_notices. by case_bool_decide.
  - left. exists e. split; [done|]. right; right. by eapply matcher_raise.
Qed.

Lemma render_log (filtered_df : table) :
  render filtered_df
  = (StTable (html_row <$> linked filtered_df)
     :: StDownloadFiltered "filtered_results.csv" (linked filtered_df)
     :: charts filtered_df, inr tt).
Proof. unfold render, charts, linked. by case_bool_decide. Qed.

Lemma app_upload_completes (reference_df : table) (input_df : dataframe)
    (sel : selections) (sort_column : sort_option) log :
  app reference_df Upload_CSV_of_Microbes (Some input_df) sel sort_column
  = (log, inr tt) →
  ∃ uploaded_microbes working_df matched_microbes unmatched,
     read_queries input_df = ([], inr uploaded_microbes) ∧
     matcher reference_df uploaded_microbes
     = Ok (working_df, matched_microbes, unmatched) ∧
     working_df ≠ [] ∧
     log = upload_notices working_df matched_microbes unmatched
           ++ (render (sort_dropdown sort_column (filter_logic working_df sel))).1.
Proof.
  unfold app, working_table.
  destruct (upload_branch_outcome reference_df input_df)
    as [(e & -> & _)|[->|(qs & w & m & u & Hr & Hm & Hw & ->)]]; csimpl; [done..|].
  rewrite render_log. intros [= <-]. exists qs, w, m, u. by rewrite render_log.
Qed.

Lemma str_strip_all_missing (col : list cell) :
  col ≠ [] → Forall (λ c, c = NaN) col → str_strip col = Raise accessor_error.
Proof.
  intros Hne Hall. destruct col as [|c col]; [done|]. unfold str_strip.
  assert (forallb (λ c : cell, bool_decide (c = NaN)) (c :: col) = true) as ->; [|done].
  apply Is_true_true, forallb_True. eapply Forall_impl; [exact Hall|].
  intros x ->. by apply bool_decide_pack.
Qed.

Lemma read_queries_stripped (input_df : dataframe) (col : list cell) :
  getitem input_df "Microbe" = Ok col →
  read_queries input_df
  = if bool_decide (col ≠ [] ∧ Forall (λ c, c = NaN) col)
    then ([], inl (Raised accessor_error))
    else ([], inr (unique (strip_cell <$> col))).
Proof.
  intros Hg. case_bool_decide as H.
  - destruct H as [Hne Hall]. unfold read_queries. rewrite Hg. csimpl.
    by rewrite str_strip_all_missing.
  - eapply read_queries_ok; [done|].
    destruct (str_strip_cases col) as [?|(? & ? & _)]; [done|tauto].
Qed.

Lemma elem_of_strip_missing (col : list cell) :
  NaN ∈ col → NaN ∈ unique (strip_cell <$> col).
Proof.
  intros Hin. apply elem_of_unique, list_elem_of_fmap. by exists NaN.
Qed.

(** X1.  In upload mode the run ends with an uncaught [KeyError] for
    "Microbe", before anything is shown, exactly when the uploaded file
    has no column of that name. *)
Theorem key_error_iff_column_missing (reference_df : table) (input_df : dataframe)
    (sel : selections) (sort_column : sort_option) :
  app reference_df Upload_CSV_of_Microbes (Some input_df) sel sort_column
  = ([], inl (Raised (KeyError "Microbe")))
  ↔ has_column input_df "Microbe" = false.
Proof.
  split.
  - unfold app, working_table.
    destruct (upload_branch_outcome reference_df input_df)
      as [(e & -> & He)|[->|(qs & w & m & u & Hr & Hm & Hw & ->)]]; csimpl.
    + intros [= ->]. by destruct He as [[_ ?]|[?|?]].
    + done.
    + by rewrite render_log.
  - apply missing_column_raises.
Qed.

Lemma not_shown_by_upload_notices (working_df : table) (matched_microbes : gset string)
    (unmatched : list cell) (e : ui_event) :
  e ∈ upload_notices working_df matched_microbes unmatched →
  shows_results e = false ∧ ∀ msg, e ≠ StError msg.
Proof.
  unfold upload_notices. case_bool_decide; csimpl; intros He;
    repeat (apply elem_of_cons in He as [->|He]; [done|]);
    by apply elem_of_nil in He.
Qed.

Lemma shown_by_render (filtered_df : table) (e : ui_event) :
  e ∈ StTable (html_row <$> linked filtered_df)
      :: StDownloadFiltered "filtered_results.csv" (linked filtered_df)
      :: charts filtered_df →
  shows_results e = true.
Proof.
  unfold charts. case_bool_decide; csimpl; intros He;
    repeat (apply elem_of_cons in He as [->|He]; [done|]);
    by apply elem_of_nil in He.
Qed.

(** X2.  The schema message is never shown, whatever the reference
    table, the mode, the upload, the selections and the sort column are:
    the check of lines 23 to 25 cannot fire. *)
Theorem schema_message_never_shown (reference_df : table) (m : mode)
    (uploaded_file : option dataframe) (sel : selections)
    (sort_column : sort_option) :
  Forall (λ e, e ≠ StError schema_message)
    (app reference_df m uploaded_file sel sort_column).1.
Proof.
  apply Forall_forall. intros e He ->. revert He.
  unfold app, working_table. destruct m; [destruct uploaded_file as [input_df|]|].
  - destruct (upload_branch_outcome reference_df input_df)
      as [(e & -> & He)|[->|(qs & w & mm & u & Hr & Hm & Hw & ->)]]; csimpl.
    + apply not_elem_of_nil.
    + by intros [=]%list_elem_of_singleton.
    + rewrite render_log. csimpl. intros [H|H]%elem_of_app.
      * apply not_shown_by_upload_notices in H as [_ H]. by eapply H.
      * by apply shown_by_render in H.
  - csimpl. by intros [=]%list_elem_of_singleton.
  - csimpl. rewrite render_log. csimpl. intros [[=]|H]%elem_of_cons.
    by apply shown_by_render in H.
Qed.

(** X3.  An uploaded Microbe column with an empty cell ends the run with
    an uncaught [AttributeError] before anything is shown, as soon as the
    reference table has a row: the [.str] accessor refuses the column,
    or else [q.lower()] is called on NaN. *)
Theorem missing_upload_cell_raises (reference_df : table) (input_df : dataframe)
    (col : list cell) (sel : selections) (sort_column : sort_option) :
  getitem input_df "Microbe" = Ok col →
  NaN ∈ col →
  reference_df ≠ [] →
  ∃ msg,
    app reference_df Upload_CSV_of_Microbes (Some input_df) sel sort_column
    = ([], inl (Raised (AttributeError msg))).
Proof.
  intros Hg Hin Href. unfold app, working_table, upload_branch.
  rewrite (read_queries_stripped _ _ Hg).
  case_bool_decide as Hall; csimpl; [by eexists|].
  rewrite matcher_missing_query; [by eexists| |done].
  by apply elem_of_strip_missing.
Qed.

Lemma missing_upload_cell_raises_witness :
  getitem [("Microbe", [Some "escher"; NaN])] "Microbe" = Ok [Some "escher"; NaN] ∧
  NaN ∈ [Some "escher"; NaN] ∧
  scenario_reference ≠ [] ∧
  ∃ msg,
    app scenario_reference Upload_CSV_of_Microbes
      (Some [("Microbe", [Some "escher"; NaN])]) (Selections [] [] [] [] []) Sort_None
    = ([], inl (Raised (AttributeError msg))).
Proof.
  assert (H1 : getitem [("Microbe", [Some "escher"; NaN])] "Microbe"
               = Ok [Some "escher"; NaN]) by reflexivity.
  assert (H2 : NaN ∈ [Some "escher"; NaN])
    by (apply list_elem_of_lookup_2 with 1; reflexivity).
  assert (H3 : scenario_reference ≠ []) by discriminate.
  split; [exact H1|]. split; [exact H2|]. split; [exact H3|].
  exact (missing_upload_cell_raises scenario_reference _ _
           (Selections [] [] [] [] []) Sort_None H1 H2 H3).
Defined.

(** X4.  A reference row without a Microbe ends every upload run that
    reads at least one cell with an uncaught [AttributeError], before
    anything is shown: [ref.lower()] is called on NaN, unless the [.str]
    accessor has refused the uploaded column before. *)
Theorem missing_reference_microbe_raises (reference_df : table)
    (input_df : dataframe) (col : list cell) (sel : selections)
    (sort_column : sort_option) :
  getitem input_df "Microbe" = Ok col →
  col ≠ [] →
  Exists (λ r, Microbe r = NaN) reference_df →
  ∃ msg,
    app reference_df Upload_CSV_of_Microbes (Some input_df) sel sort_column
    = ([], inl (Raised (AttributeError msg))).
Proof.
  intros Hg Hne Hex. unfold app, working_table, upload_branch.
  rewrite (read_queries_stripped _ _ Hg).
  case_bool_decide as Hall; csimpl; [by eexists|].
  rewrite matcher_missing_reference; [by eexists|done|].
  intros Hu%unique_nil. by destruct col.
Qed.

Lemma missing_reference_microbe_raises_witness :
  getitem [("Microbe", [Some "escher"])] "Microbe" = Ok [Some "escher"] ∧
  [Some "escher"] ≠ [] ∧
  Exists (λ r, Microbe r = NaN)
    (scenario_reference ++ [Row NaN (Some "Obesity") NaN NaN NaN NaN NaN NaN]) ∧
  ∃ msg,
    app (scenario_reference ++ [Row NaN (Some "Obesity") NaN NaN NaN NaN NaN NaN])
      Upload_CSV_of_Microbes
      (Some [("Microbe", [Some "escher"])]) (Selections [] [] [] [] []) Sort_None
    = ([], inl (Raised (AttributeError msg))).
Proof.
  assert (H1 : getitem [("Microbe", [Some "escher"])] "Microbe" = Ok [Some "escher"])
    by reflexivity.
  assert (H2 : [Some "escher"] ≠ @nil cell) by discriminate.
  assert (H3 : Exists (λ r, Microbe r = NaN)
                 (scenario_reference
                  ++ [Row NaN (Some "Obesity") NaN NaN NaN NaN NaN NaN])).
  { apply Exists_exists. eexists.
    split; [apply list_elem_of_lookup_2 with 3; reflexivity|reflexivity]. }
  split; [exact H1|]. split; [exact H2|]. split; [exact H3|].
  exact (missing_reference_microbe_raises _ _ _
           (Selections [] [] [] [] []) Sort_None H1 H2 H3).
Defined.

(** X5.  Once the reference file and the upload, if there is one, have
    been read into frames, a run that ends early ends in one of three
    ways, all in upload mode, and has shown nothing but the one message
    named here: without a file, the request to upload one and a stop;
    with no matching row, the no-match message and a stop; or an
    uncaught exception with nothing shown, which is the [KeyError] of
    the missing Microbe column or an [AttributeError]. *)
Theorem early_end_outcomes (reference_df : table) (m : mode)
    (uploaded_file : option dataframe) (sel : selections)
    (sort_column : sort_option) (log : list ui_event) (h : halt) :
  app reference_df m uploaded_file sel sort_column = (log, inl h) →
  m = Upload_CSV_of_Microbes ∧
  ((uploaded_file = None ∧ h = Stopped ∧
    log = [StWarning "Please upload a CSV file to continue."]) ∨
   (is_Some uploaded_file ∧ h = Stopped ∧ log = [StError no_match_message]) ∨
   (is_Some uploaded_file ∧ log = [] ∧
    (h = Raised (KeyError "Microbe") ∨ ∃ msg, h = Raised (AttributeError msg)))).
Proof.
  unfold app, working_table. destruct m; [destruct uploaded_file as [input_df|]|].
  - destruct (upload_branch_outcome reference_df input_df)
      as [(e & -> & He)|[->|(qs & w & mm & u & Hr & Hm & Hw & ->)]]; csimpl.
    + intros [= <- <-]. split; [done|]. right; right.
      split; [done|]. split; [done|].
      destruct He as [[-> _]|[->| ->]]; [by left|right; by eexists..].
    + intros [= <- <-]. split; [done|]. right; left. done.
    + by rewrite render_log.
  - csimpl. intros [= <- <-]. split; [done|]. by left.
  - csimpl. by rewrite render_log.
Qed.

Lemma early_end_outcomes_witness :
  app scenario_reference Upload_CSV_of_Microbes
    (Some [("Microbe", [Some "Nonexistent Genus"])]) (Selections [] [] [] [] [])
    Sort_Effect
  = ([StError no_match_message], inl Stopped) ∧
  Upload_CSV_of_Microbes = Upload_CSV_of_Microbes ∧
  ((Some [("Microbe", [Some "Nonexistent Genus"])] = @None dataframe ∧
    Stopped = Stopped ∧
    [StError no_match_message]
    = [StWarning "Please upload a CSV file to continue."]) ∨
   (is_Some (Some [("Microbe", [Some "Nonexistent Genus"])]) ∧ Stopped = Stopped ∧
    [StError no_match_message] = [StError no_match_message]) ∨
   (is_Some (Some [("Microbe", [Some "Nonexistent Genus"])]) ∧
    [StError no_match_message] = [] ∧
    (Stopped = Raised (KeyError "Microbe") ∨
     ∃ msg, Stopped = Raised (AttributeError msg)))).
Proof.
  assert (H : app scenario_reference Upload_CSV_of_Microbes
                (Some [("Microbe", [Some "Nonexistent Genus"])])
                (Selections [] [] [] [] []) Sort_Effect
              = ([StError no_match_message], inl Stopped)) by reflexivity.
  split; [exact H|].
  exact (early_end_outcomes _ _ _ _ _ _ _ H).
Defined.

Lemma sort_dropdown_Permutation (sort_column : sort_option) (T : table) :
  sort_dropdown sort_column T ≡ₚ T.
Proof.
  unfold sort_dropdown. destruct (column_of sort_column) as [col|]; [|done].
  apply (sorted_rows_Permutation String.ltb col).
Qed.

Lemma working_rows_no_query (reference_df : table) :
  working_rows reference_df [] = Ok [].
Proof. induction reference_df as [|r rest IH]; csimpl; [done|]. by rewrite IH. Qed.

(** What the matcher returns when it returns a working table with a row:
    queries and reference microbes are all strings, and the working table
    is the reference table filtered by the matching rule. *)
Lemma matcher_ok_working (reference_df : table) (uploaded_microbes : list cell)
    working_df matched_microbes unmatched :
  matcher reference_df uploaded_microbes
  = Ok (working_df, matched_microbes, unmatched) →
  working_df ≠ [] →
  ∃ queries, uploaded_microbes = Some <$> queries ∧
    Forall (λ r, is_Some (Microbe r)) reference_df ∧
    working_df = filter (λ r, row_selected queries r) reference_df.
Proof.
  intros Hm Hw. pose proof (matcher_working _ _ _ _ _ Hm) as Hrows.
  destruct (matcher_ok_present _ _ _ Hm) as [->|[->|[Href Hqs]]].
  - by injection Hrows as <-.
  - rewrite working_rows_no_query in Hrows. by injection Hrows as <-.
  - destruct (all_present_fmap _ Hqs) as [queries ->]. exists queries.
    split; [done|]. split; [done|].
    rewrite (working_rows_present _ _ Href) in Hrows. by injection Hrows as <-.
Qed.

(** X6.  In explore mode the run always completes, whatever the
    reference table holds and whatever sits in the upload slot: it shows
    the size of the dataset, then the table and the download with the
    reference rows that meet the selections, in reference order when no
    sort column is chosen and rearranged otherwise, then the four charts
    exactly when a row is shown. *)
Theorem explore_mode_shows_filtered_rows (reference_df : table)
    (uploaded_file : option dataframe) (sel : selections)
    (sort_column : sort_option) :
  ∃ shown drawn,
    app reference_df Explore_Entire_Dataset uploaded_file sel sort_column
    = (StSuccess ("Loaded full dataset: "
         +:+ Py.str (length (unique (nonnull (Microbe <$> reference_df))))
         +:+ " microbes, " +:+ Py.str (length reference_df) +:+ " entries")
       :: StTable (html_row <$> ((λ r, (r, study_link r)) <$> shown))
       :: StDownloadFiltered "filtered_results.csv" ((λ r, (r, study_link r)) <$> shown)
       :: drawn, inr tt) ∧
    shown ≡ₚ filter (λ r, retained sel r) reference_df ∧
    (sort_column = Sort_None → shown = filter (λ r, retained sel r) reference_df) ∧
    (shown = [] → drawn = []) ∧
    (shown ≠ [] →
     drawn = [StChart "Distribution by Effect" (effect_counts shown);
              StChart "Top 10 Conditions" (condition_counts shown);
              StChart "Sample Types" (sample_counts shown);
              StChart "Top 10 Microbes" (microbe_counts shown)]).
Proof.
  exists (sort_dropdown sort_column (filter_logic reference_df sel)),
    (charts (sort_dropdown sort_column (filter_logic reference_df sel))).
  split; [|split; [|split; [|split]]].
  - unfold app, working_table. csimpl. by rewrite render_log.
  - rewrite <-filter_logic_filter. apply sort_dropdown_Permutation.
  - intros ->. apply filter_logic_filter.
  - intros ->. done.
  - intros Hne. unfold charts. by rewrite bool_decide_eq_false_2.
Qed.

(** X7.  An upload run that completes has read a list of names, all
    strings, and shows, after notices that are neither table nor chart,
    the table and the download with exactly the reference rows whose
    microbe starts with one of the names (case ignored) and that meet the
    selections, followed by nothing but charts. *)
Theorem upload_mode_shows_matching_rows (reference_df : table)
    (input_df : dataframe) (sel : selections) (sort_column : sort_option)
    (log : list ui_event) :
  app reference_df Upload_CSV_of_Microbes (Some input_df) sel sort_column
  = (log, inr tt) →
  ∃ queries notices shown drawn,
    read_queries input_df = ([], inr (Some <$> queries)) ∧
    log = notices
          ++ StTable (html_row <$> ((λ r, (r, study_link r)) <$> shown))
          :: StDownloadFiltered "filtered_results.csv"
               ((λ r, (r, study_link r)) <$> shown)
          :: drawn ∧
    Forall (λ e, shows_results e = false) notices ∧
    Forall (λ e, ∃ title data, e = StChart title data) drawn ∧
    shown ≡ₚ filter (λ r, retained sel r ∧ row_selected queries r) reference_df.
Proof.
  intros (qs & w & m & u & Hr & Hm & Hw & ->)%app_upload_completes.
  destruct (matcher_ok_working _ _ _ _ _ Hm Hw) as (queries & -> & Href & ->).
  exists queries, (upload_notices (filter (λ r, row_selected queries r) reference_df) m u),
    (sort_dropdown sort_column
       (filter_logic (filter (λ r, row_selected queries r) reference_df) sel)),
    (charts (sort_dropdown sort_column
       (filter_logic (filter (λ r, row_selected queries r) reference_df) sel))).
  split; [done|]. split; [by rewrite render_log|]. split; [|split].
  - apply Forall_forall. intros e He. by apply not_shown_by_upload_notices in He as [? _].
  - unfold charts. case_bool_decide; [done|]. repeat constructor; eauto.
  - rewrite sort_dropdown_Permutation, filter_logic_filter.
    by rewrite list_filter_filter.
Qed.

Lemma upload_mode_shows_matching_rows_witness :
  app scenario_reference Upload_CSV_of_Microbes
    (Some [("Microbe", [Some "escher"])]) (Selections [] [] [] [] []) Sort_None
  = ([StSuccess "Matched 2 microbes → 2 entries found."]
     ++ (render (take 2 scenario_reference)).1, inr tt) ∧
  ∃ queries notices shown drawn,
    read_queries [("Microbe", [Some "escher"])] = ([], inr (Some <$> queries)) ∧
    [StSuccess "Matched 2 microbes → 2 entries found."]
    ++ (render (take 2 scenario_reference)).1
    = notices
      ++ StTable (html_row <$> ((λ r, (r, study_link r)) <$> shown))
      :: StDownloadFiltered "filtered_results.csv"
           ((λ r, (r, study_link r)) <$> shown)
      :: drawn ∧
    Forall (λ e, shows_results e = false) notices ∧
    Forall (λ e, ∃ title data, e = StChart title data) drawn ∧
    shown ≡ₚ filter (λ r, retained (Selections [] [] [] [] []) r
                          ∧ row_selected queries r) scenario_reference.
Proof.
  assert (H : app scenario_reference Upload_CSV_of_Microbes
                (Some [("Microbe", [Some "escher"])]) (Selections [] [] [] [] [])
                Sort_None
              = ([StSuccess "Matched 2 microbes → 2 entries found."]
                 ++ (render (take 2 scenario_reference)).1, inr tt))
    by reflexivity.
  split; [exact H|].
  exact (upload_mode_shows_matching_rows _ _ _ _ _ H).
Defined.

(** ** What the matcher found *)

Lemma matched_loop_no_reference (uploaded_microbes : list cell) (acc : gset string) :
  matched_loop uploaded_microbes [] acc = Ok acc.
Proof.
  revert acc. induction uploaded_microbes as [|q qs IH]; intros acc; csimpl; [done|].
  rewrite IH. f_equal. set_solver.
Qed.

Lemma unmatched_of_no_reference (uploaded_microbes : list cell) :
  unmatched_of uploaded_microbes [] = Ok uploaded_microbes.
Proof. induction uploaded_microbes as [|q qs IH]; csimpl; [done|]. by rewrite IH. Qed.

(** Without a reference row or without a query nothing matches. *)
Lemma matcher_degenerate (reference_df : table) (uploaded_microbes : list cell) :
  reference_df = [] ∨ uploaded_microbes = [] →
  matcher reference_df uploaded_microbes = Ok ([], ∅, uploaded_microbes).
Proof.
  unfold matcher. intros [->| ->].
  - csimpl. unfold unique. csimpl. rewrite matched_loop_no_reference. csimpl.
    by rewrite unmatched_of_no_reference.
  - by rewrite working_rows_no_query.
Qed.

Lemma length_unique_from {A} `{EqDecision A} (seen l : list A) :
  length (unique_from seen l) ≤ length l.
Proof.
  revert seen. induction l as [|x l IH]; intros seen; csimpl; [done|].
  case_decide; csimpl; [specialize (IH seen)|specialize (IH (x :: seen))]; lia.
Qed.

Lemma size_list_to_set_unique (l : list string) :
  size (list_to_set (C := gset string) l) = length (unique l).
Proof.
  rewrite <-(size_list_to_set (C := gset string) (unique l))
    by apply NoDup_unique_from.
  f_equal. apply set_eq. intros x.
  by rewrite !elem_of_list_to_set, elem_of_unique.
Qed.

Lemma elem_of_nonnull (col : list cell) (s : string) : s ∈ nonnull col ↔ Some s ∈ col.
Proof.
  unfold nonnull. rewrite list_elem_of_omap. split.
  - intros (c & Hc & Hs). by rewrite <-Hs.
  - intros Hc. by exists (Some s).
Qed.

(** The matched values, for a reference table and queries without NaN:
    the microbes of the working table. *)
Lemma matched_of_working (reference_df : table) (queries : list string)
    working_df matched_microbes unmatched :
  Forall (λ r, is_Some (Microbe r)) reference_df →
  matcher reference_df (Some <$> queries)
  = Ok (working_df, matched_microbes, unmatched) →
  matched_microbes = list_to_set (nonnull (Microbe <$> working_df)).
Proof.
  intros Href Hm.
  destruct (all_present_fmap (Microbe <$> reference_df)) as [refs Hrefs];
    [by apply Forall_fmap|].
  destruct (matcher_present reference_df queries refs Hrefs) as (m & Hm' & Hin).
  rewrite Hm' in Hm. injection Hm as <- <- <-.
  apply set_eq. intros v.
  rewrite Hin, elem_of_list_to_set, elem_of_nonnull, list_elem_of_fmap.
  split.
  - intros [Hv (q & Hq & Hp)].
    assert (Some v ∈ Microbe <$> reference_df) as (r & Hr & Hrin)%list_elem_of_fmap
      by (rewrite Hrefs; by apply list_elem_of_fmap_2).
    exists r. split; [done|]. apply list_elem_of_filter. split; [|done].
    unfold row_selected. rewrite <-Hr. csimpl.
    apply Is_true_true, existsb_exists. exists q. split; [by apply list_elem_of_In|done].
  - intros (r & Hr & [Hsel Hrin]%list_elem_of_filter). split.
    + assert (Some v ∈ Some <$> refs) as Hv
        by (rewrite <-Hrefs, Hr; by apply list_elem_of_fmap_2).
      by apply list_elem_of_fmap in Hv as (x & [= ->] & Hx).
    + unfold row_selected in Hsel. rewrite <-Hr in Hsel. csimpl in Hsel.
      apply Is_true_true, existsb_exists in Hsel as (q & Hq%list_elem_of_In & Hp).
      eauto.
Qed.

(** X8.  Whenever the matcher returns, the matched set holds exactly the
    microbes of the working table; so the two numbers of the success
    message are the number of distinct microbes among the rows found and
    the number of those rows, and the first is at most the second. *)
Theorem matched_are_working_microbes (reference_df : table)
    (uploaded_microbes : list cell) (working_df : table)
    (matched_microbes : gset string) (unmatched : list cell) :
  matcher reference_df uploaded_microbes
  = Ok (working_df, matched_microbes, unmatched) →
  matched_microbes = list_to_set (nonnull (Microbe <$> working_df)) ∧
  size matched_microbes = length (unique (nonnull (Microbe <$> working_df))) ∧
  size matched_microbes ≤ length working_df.
Proof.
  intros Hm.
  assert (matched_microbes = list_to_set (nonnull (Microbe <$> working_df))) as ->.
  { destruct (matcher_ok_present _ _ _ Hm) as [H|[H|[Href Hqs]]].
    - rewrite matcher_degenerate in Hm by by left. by injection Hm as <- <- <-.
    - rewrite matcher_degenerate in Hm by by right. by injection Hm as <- <- <-.
    - destruct (all_present_fmap _ Hqs) as [queries ->].
      by eapply matched_of_working. }
  split; [done|]. rewrite size_list_to_set_unique. split; [done|].
  etrans; [apply length_unique_from|]. unfold nonnull.
  rewrite length_omap_id. etrans; [apply length_filter|]. by rewrite length_fmap.
Qed.

Lemma matched_are_working_microbes_witness :
  matcher scenario_reference [Some "escher"; Some "Nonexistent Genus"]
  = Ok (take 2 scenario_reference,
        {[ "Escherichia coli"; "Escherichia fergusonii" ]},
        [Some "Nonexistent Genus"]) ∧
  ({[ "Escherichia coli"; "Escherichia fergusonii" ]} : gset string)
  = list_to_set (nonnull (Microbe <$> take 2 scenario_reference)) ∧
  size ({[ "Escherichia coli"; "Escherichia fergusonii" ]} : gset string)
  = length (unique (nonnull (Microbe <$> take 2 scenario_reference))) ∧
  size ({[ "Escherichia coli"; "Escherichia fergusonii" ]} : gset string)
  ≤ length (take 2 scenario_reference).
Proof.
  assert (H : matcher scenario_reference [Some "escher"; Some "Nonexistent Genus"]
              = Ok (take 2 scenario_reference,
                    {[ "Escherichia coli"; "Escherichia fergusonii" ]},
                    [Some "Nonexistent Genus"])).
  { vm_compute. reflexivity. }
  split; [exact H|].
  exact (matched_are_working_microbes _ _ _ _ _ H).
Defined.

Lemma filter_eq_all {A} (P : A → Prop) `{!∀ x, Decision (P x)} (l : list A) :
  filter P l = l → Forall P l.
Proof.
  intros Hf. apply Forall_forall. intros x Hx. rewrite <-Hf in Hx.
  by apply list_elem_of_filter in Hx as [? _].
Qed.

Lemma filter_all_list {A} (P : A → Prop) `{!∀ x, Decision (P x)} (l : list A) :
  Forall P l → filter P l = l.
Proof.
  induction 1 as [|x l Hx Hl IH]; [done|]. by rewrite filter_cons_True, IH.
Qed.

Lemma filter_nil_none {A} (P : A → Prop) `{!∀ x, Decision (P x)} (l : list A) :
  filter P l = [] ↔ Forall (λ x, ¬ P x) l.
Proof.
  rewrite Forall_forall. split.
  - intros Hf x Hx HP. assert (x ∈ filter P l) as Hin by by apply list_elem_of_filter.
    rewrite Hf in Hin. by apply elem_of_nil in Hin.
  - intros Hall. apply elem_of_nil_inv. intros x [HP Hx]%list_elem_of_filter.
    by apply (Hall x).
Qed.

(** On data without NaN: no row is selected exactly when no query has a
    match. *)
Lemma no_row_no_match (reference_df : table) (queries refs : list string) :
  Microbe <$> reference_df = Some <$> refs →
  filter (λ r, row_selected queries r) reference_df = [] ↔
  filter (λ q, negb (has_match refs q)) queries = queries.
Proof.
  intros Hrefs. rewrite filter_nil_none. split.
  - intros Hnone. apply filter_all_list, Forall_forall. intros q Hq.
    apply negb_True. intros (ref & Href & Hp)%Is_true_true%has_match_spec.
    assert (Some ref ∈ Microbe <$> reference_df) as (r & Hr & Hrin)%list_elem_of_fmap
      by (rewrite Hrefs; by apply list_elem_of_fmap_2).
    rewrite Forall_forall in Hnone. apply (Hnone r Hrin).
    apply Is_true_true, row_selected_spec. eauto.
  - intros Hall%filter_eq_all. rewrite Forall_forall in Hall.
    apply Forall_forall. intros r Hr (ref & q & Hm & Hq & Hp)%Is_true_true%row_selected_spec.
    specialize (Hall q Hq). apply negb_True in Hall. apply Hall.
    apply Is_true_true, has_match_spec. exists ref. split; [|done].
    assert (Some ref ∈ Some <$> refs) as Hin
      by (rewrite <-Hrefs, <-Hm; by apply list_elem_of_fmap_2).
    by apply list_elem_of_fmap in Hin as (x & [= ->] & Hx).
Qed.

(** X9.  Whenever the matcher returns, the three conditions under which
    nothing was found agree: the working table is empty (the test of
    line 39), every uploaded name is reported unmatched, and the matched
    set is empty. *)
Theorem no_match_iff_all_unmatched (reference_df : table)
    (uploaded_microbes : list cell) (working_df : table)
    (matched_microbes : gset string) (unmatched : list cell) :
  matcher reference_df uploaded_microbes
  = Ok (working_df, matched_microbes, unmatched) →
  (working_df = [] ↔ unmatched = uploaded_microbes) ∧
  (working_df = [] ↔ matched_microbes = ∅).
Proof.
  intros Hm. destruct (matcher_ok_present _ _ _ Hm) as [H|[H|[Href Hqs]]].
  - rewrite matcher_degenerate in Hm by by left. by injection Hm as <- <- <-.
  - rewrite matcher_degenerate in Hm by by right. by injection Hm as <- <- <-.
  - destruct (all_present_fmap _ Hqs) as [queries ->].
    pose proof (matched_of_working _ _ _ _ _ Href Hm) as ->.
    destruct (all_present_fmap (Microbe <$> reference_df)) as [refs Hrefs];
      [by apply Forall_fmap|].
    destruct (matcher_present reference_df queries refs Hrefs) as (m & Hm' & _).
    rewrite Hm' in Hm. injection Hm as <- _ <-. split.
    + rewrite (no_row_no_match _ _ _ Hrefs). split; [by intros ->|].
      by intros ?%(inj (fmap Some)).
    + split; [by intros ->|]. intros Hempty.
      destruct (filter _ reference_df) as [|r w] eqn:E; [done|exfalso].
      assert (r ∈ reference_df) as Hr.
      { eapply list_elem_of_filter. rewrite E. by left. }
      rewrite Forall_forall in Href. destruct (Href r Hr) as [v Hv].
      assert (v ∈ (∅ : gset string)) as Hin; [|set_solver].
      rewrite <-Hempty, elem_of_list_to_set, elem_of_nonnull. csimpl.
      rewrite Hv. by left.
Qed.

Lemma no_match_iff_all_unmatched_witness :
  matcher scenario_reference [Some "Nonexistent Genus"; Some "Another"]
  = Ok ([], ∅, [Some "Nonexistent Genus"; Some "Another"]) ∧
  ((@nil row = [] ↔
    [Some "Nonexistent Genus"; Some "Another"]
    = [Some "Nonexistent Genus"; Some "Another"]) ∧
   (@nil row = [] ↔ (∅ : gset string) = ∅)).
Proof.
  assert (H : matcher scenario_reference [Some "Nonexistent Genus"; Some "Another"]
              = Ok ([], ∅, [Some "Nonexistent Genus"; Some "Another"]))
    by (vm_compute; reflexivity).
  split; [exact H|].
  exact (no_match_iff_all_unmatched _ _ _ _ _ H).
Defined.

Lemma nonnull_fmap_Some (l : list string) : nonnull (Some <$> l) = l.
Proof. unfold nonnull. induction l as [|x l IH]; csimpl; [done|]. by rewrite IH. Qed.

(** X10.  When the upload branch hands over a working table, the names
    read from the file are distinct strings, and what it has shown is
    fixed by them: if some of them match no reference microbe, a warning
    with their number, then their list and its download, each name once
    and in upload order, and nothing of that otherwise; then the success
    message with the number of distinct microbes and of rows of the
    working table. *)
Theorem unmatched_names_reported (reference_df : table) (input_df : dataframe)
    (log : list ui_event) (working_df : table) :
  upload_branch reference_df (Some input_df) = (log, inr working_df) →
  ∃ queries unmatched : list string,
    read_queries input_df = ([], inr (Some <$> queries)) ∧
    NoDup queries ∧
    unmatched
    = filter (λ q, negb (has_match (nonnull (Microbe <$> reference_df)) q)) queries ∧
    NoDup unmatched ∧
    log
    = (if bool_decide (unmatched = []) then []
       else [StWarning (Py.str (length unmatched)
               +:+ " microbes not found in the reference dataset.");
             StDataframe "Unmatched Microbes" (Some <$> unmatched);
             StDownloadUnmatched "unmatched_microbes.csv" (Some <$> unmatched)])
      ++ [StSuccess ("Matched "
            +:+ Py.str (length (unique (nonnull (Microbe <$> working_df))))
            +:+ " microbes → " +:+ Py.str (length working_df)
            +:+ " entries found.")].
Proof.
  destruct (upload_branch_outcome reference_df input_df)
    as [(e & -> & _)|[->|(qs & w & m & u & Hr & Hm & Hw & ->)]]; [done..|].
  intros [= <- <-].
  destruct (matcher_ok_working _ _ _ _ _ Hm Hw) as (queries & -> & Href & Hwork).
  pose proof (matched_of_working _ _ _ _ _ Href Hm) as ->.
  destruct (all_present_fmap (Microbe <$> reference_df)) as [refs Hrefs];
    [by apply Forall_fmap|].
  destruct (matcher_present reference_df queries refs Hrefs) as (m & Hm' & _).
  rewrite Hm' in Hm. injection Hm as _ _ <-.
  assert (NoDup queries) as Hnd.
  { destruct (read_queries_outcome input_df)
      as [(e & He & _)|(col & _ & _ & Hq)]; [congruence|].
    rewrite Hq in Hr. injection Hr as Hr.
    apply (NoDup_fmap_1 Some). rewrite <-Hr. apply NoDup_unique_from. }
  exists queries, (filter (λ q, negb (has_match refs q)) queries).
  rewrite Hrefs, nonnull_fmap_Some.
  split; [done|]. split; [done|]. split; [done|].
  split; [by apply NoDup_filter|].
  unfold upload_notices. rewrite size_list_to_set_unique, length_fmap.
  destruct (filter _ queries); done.
Qed.

Lemma unmatched_names_reported_witness :
  upload_branch scenario_reference
    (Some [("Microbe", [Some " escher"; Some "Nonexistent Genus"; Some "escher "])])
  = ([StWarning "1 microbes not found in the reference dataset.";
      StDataframe "Unmatched Microbes" [Some "Nonexistent Genus"];
      StDownloadUnmatched "unmatched_microbes.csv" [Some "Nonexistent Genus"];
      StSuccess "Matched 2 microbes → 2 entries found."],
     inr (take 2 scenario_reference)) ∧
  ∃ queries unmatched : list string,
    read_queries [("Microbe", [Some " escher"; Some "Nonexistent Genus"; Some "escher "])]
    = ([], inr (Some <$> queries)) ∧
    NoDup queries ∧
    unmatched
    = filter (λ q, negb (has_match (nonnull (Microbe <$> scenario_reference)) q))
        queries ∧
    NoDup unmatched ∧
    [StWarning "1 microbes not found in the reference dataset.";
     StDataframe "Unmatched Microbes" [Some "Nonexistent Genus"];
     StDownloadUnmatched "unmatched_microbes.csv" [Some "Nonexistent Genus"];
     StSuccess "Matched 2 microbes → 2 entries found."]
    = (if bool_decide (unmatched = []) then []
       else [StWarning (Py.str (length unmatched)
               +:+ " microbes not found in the reference dataset.");
             StDataframe "Unmatched Microbes" (Some <$> unmatched);
             StDownloadUnmatched "unmatched_microbes.csv" (Some <$> unmatched)])
      ++ [StSuccess ("Matched "
            +:+ Py.str (length (unique (nonnull (Microbe <$> take 2 scenario_reference))))
            +:+ " microbes → " +:+ Py.str (length (take 2 scenario_reference))
            +:+ " entries found.")].
Proof.
  assert (H : upload_branch scenario_reference
                (Some [("Microbe",
                        [Some " escher"; Some "Nonexistent Genus"; Some "escher "])])
              = ([StWarning "1 microbes not found in the reference dataset.";
                  StDataframe "Unmatched Microbes" [Some "Nonexistent Genus"];
                  StDownloadUnmatched "unmatched_microbes.csv" [Some "Nonexistent Genus"];
                  StSuccess "Matched 2 microbes → 2 entries found."],
                 inr (take 2 scenario_reference)))
    by (vm_compute; reflexivity).
  split; [exact H|].
  exact (unmatched_names_reported _ _ _ _ H).
Defined.

Lemma prefix_trans (a b c : string) :
  String.prefix a b = true → String.prefix b c = true → String.prefix a c = true.
Proof.
  revert b c. induction a as [|x a IH]; intros b c; [by destruct c|].
  destruct b as [|y b]; [done|]. destruct c as [|z c]; [done|]. csimpl.
  destruct (ascii_dec x y) as [->|]; [|done].
  destruct (ascii_dec y z) as [->|]; [|done]. apply IH.
Qed.

Lemma filter_sublist_impl {A} (P Q : A → Prop) `{!∀ x, Decision (P x)}
    `{!∀ x, Decision (Q x)} (l : list A) :
  (∀ x, P x → Q x) → filter P l `sublist_of` filter Q l.
Proof.
  intros HPQ. induction l as [|x l IH]; [done|].
  rewrite !filter_cons. destruct (decide (P x)) as [HP|HP].
  - rewrite decide_True by auto. by constructor.
  - destruct (decide (Q x)); [by constructor|done].
Qed.

(** X11.  A name that extends another one, case ignored, selects a part
    of the rows the shorter name selects, in the same order. *)
Theorem longer_query_selects_fewer_rows (reference_df : table) (q q' : string) :
  Forall (λ r, is_Some (Microbe r)) reference_df →
  Py.startswith (Py.lower q') (Py.lower q) = true →
  ∃ working_df working_df',
    working_rows reference_df [Some q] = Ok working_df ∧
    working_rows reference_df [Some q'] = Ok working_df' ∧
    working_df' `sublist_of` working_df.
Proof.
  intros Href Hext.
  exists (filter (λ r, row_selected [q] r) reference_df),
    (filter (λ r, row_selected [q'] r) reference_df).
  split; [exact (working_rows_present reference_df [q] Href)|].
  split; [exact (working_rows_present reference_df [q'] Href)|].
  apply filter_sublist_impl. intros r. unfold row_selected.
  destruct (Microbe r) as [ref|]; csimpl; [|done].
  rewrite !orb_false_r. unfold prefix_match, Py.startswith in *.
  intros H%Is_true_true. apply Is_true_true. by eapply prefix_trans.
Qed.

Lemma longer_query_selects_fewer_rows_witness :
  Forall (λ r, is_Some (Microbe r)) scenario_reference ∧
  Py.startswith (Py.lower "Escherichia C") (Py.lower "escher") = true ∧
  ∃ working_df working_df',
    working_rows scenario_reference [Some "escher"] = Ok working_df ∧
    working_rows scenario_reference [Some "Escherichia C"] = Ok working_df' ∧
    working_df' `sublist_of` working_df.
Proof.
  assert (H1 : Forall (λ r, is_Some (Microbe r)) scenario_reference)
    by (repeat constructor; by eexists).
  assert (H2 : Py.startswith (Py.lower "Escherichia C") (Py.lower "escher") = true)
    by reflexivity.
  split; [exact H1|]. split; [exact H2|].
  exact (longer_query_selects_fewer_rows scenario_reference _ _ H1 H2).
Defined.

Lemma lower_char_idemp (c : ascii) : Py.lower_char (Py.lower_char c) = Py.lower_char c.
Proof. by destruct c as [[] [] [] [] [] [] [] []]. Qed.

Lemma lower_idemp (s : string) : Py.lower (Py.lower s) = Py.lower s.
Proof. induction s as [|c s IH]; csimpl; [done|]. by rewrite lower_char_idemp, IH. Qed.

Lemma any_query_lower (ref : cell) (queries : list string) :
  any_query ref (Some <$> (Py.lower <$> queries)) = any_query ref (Some <$> queries).
Proof.
  induction queries as [|q qs IH]; csimpl; [done|].
  destruct ref as [ref|]; csimpl; [|done]. by rewrite lower_idemp, IH.
Qed.

Lemma matched_for_lower (q : string) (refs : list cell) :
  matched_for (Some (Py.lower q)) refs = matched_for (Some q) refs.
Proof.
  induction refs as [|ref refs IH]; csimpl; [done|].
  destruct ref as [ref|]; csimpl; [|done]. by rewrite lower_idemp, IH.
Qed.

(** X12.  Matching ignores the case of the uploaded names: with every
    name lowered, the working table and the matched set are the same,
    and so is the failure if there is one. *)
Theorem matching_ignores_case (reference_df : table) (queries : list string)
    (refs : list cell) (matched_microbes : gset string) :
  working_rows reference_df (Some <$> (Py.lower <$> queries))
  = working_rows reference_df (Some <$> queries) ∧
  matched_loop (Some <$> (Py.lower <$> queries)) refs matched_microbes
  = matched_loop (Some <$> queries) refs matched_microbes.
Proof.
  split.
  - induction reference_df as [|r rest IH]; csimpl; [done|].
    by rewrite any_query_lower, IH.
  - revert matched_microbes. induction queries as [|q qs IH]; intros acc; csimpl; [done|].
    rewrite matched_for_lower. destruct (matched_for _ _); csimpl; [apply IH|done].
Qed.

(** ** The options of the sidebar *)

Lemma elem_of_options (col : row → cell) (working_df : table) (s : string) :
  s ∈ options col working_df ↔ ∃ r, r ∈ working_df ∧ col r = Some s.
Proof.
  unfold options, sorted. rewrite merge_sort_Permutation.
  rewrite elem_of_unique, elem_of_nonnull, list_elem_of_fmap. naive_solver.
Qed.

Lemma NoDup_options (col : row → cell) (working_df : table) :
  NoDup (options col working_df).
Proof.
  unfold options, sorted. rewrite merge_sort_Permutation. apply NoDup_unique_from.
Qed.

(** X13.  The options a multiselect offers for a column are the
    distinct values the working table has in it, in ascending order: the
    one list without repetition, ascending, that holds exactly those
    values. *)
Theorem options_are_the_sorted_values (col : row → cell) (working_df : table)
    (l : list string) :
  l = options col working_df ↔
  NoDup l ∧ StronglySorted String.le l ∧
  ∀ s, s ∈ l ↔ ∃ r, r ∈ working_df ∧ col r = Some s.
Proof.
  split.
  - intros ->. split; [apply NoDup_options|]. split; [|apply elem_of_options].
    apply StronglySorted_merge_sort; apply _.
  - intros (Hnd & Hsorted & Hin).
    apply (StronglySorted_unique String.le); [done| |].
    + apply StronglySorted_merge_sort; apply _.
    + apply NoDup_Permutation; [done|apply NoDup_options|].
      intros s. by rewrite Hin, elem_of_options.
Qed.

(** X14.  Choosing, in one multiselect, values among those it offers
    never empties the table: every chosen value keeps at least one row,
    and all rows kept have one of the chosen values. *)
Theorem offered_selection_keeps_rows (col : row → cell) (selected : list string)
    (working_df : table) :
  selected ≠ [] →
  selected ⊆ options col working_df →
  filter_step col selected working_df ≠ [] ∧
  (∀ s, s ∈ selected → ∃ r, r ∈ filter_step col selected working_df ∧ col r = Some s) ∧
  (∀ r, r ∈ filter_step col selected working_df → ∃ s, s ∈ selected ∧ col r = Some s).
Proof.
  intros Hne Hsub.
  assert (∀ s, s ∈ selected →
            ∃ r, r ∈ filter_step col selected working_df ∧ col r = Some s) as Hkeep.
  { intros s Hs. destruct (proj1 (elem_of_options _ _ _) (Hsub s Hs)) as (r & Hr & Hc).
    exists r. split; [|done]. rewrite filter_step_filter.
    apply list_elem_of_filter. split; [|done].
    apply Is_true_true, constraint_met_spec. right. eauto. }
  split; [|split; [done|]].
  - destruct selected as [|s selected]; [done|].
    destruct (Hkeep s) as (r & Hr & _); [by left|].
    intros Hnil. rewrite Hnil in Hr. by apply elem_of_nil in Hr.
  - intros r. rewrite filter_step_filter.
    intros [[?|(s & ? & ?)]%Is_true_true%constraint_met_spec _]%list_elem_of_filter;
      [done|eauto].
Qed.

Lemma offered_selection_keeps_rows_witness :
  ["Obesity"] ≠ [] ∧
  ["Obesity"] ⊆ options Condition sample_table ∧
  filter_step Condition ["Obesity"] sample_table ≠ [] ∧
  (∀ s, s ∈ ["Obesity"] →
     ∃ r, r ∈ filter_step Condition ["Obesity"] sample_table ∧ Condition r = Some s) ∧
  (∀ r, r ∈ filter_step Condition ["Obesity"] sample_table →
     ∃ s, s ∈ ["Obesity"] ∧ Condition r = Some s).
Proof.
  assert (H1 : ["Obesity"] ≠ @nil string) by discriminate.
  assert (H2 : ["Obesity"] ⊆ options Condition sample_table).
  { intros s ->%list_elem_of_singleton. apply list_elem_of_lookup_2 with 1. reflexivity. }
  split; [exact H1|]. split; [exact H2|].
  exact (offered_selection_keeps_rows Condition ["Obesity"] sample_table H1 H2).
Defined.

(** ** The charts *)

Lemma NoDup_count_table (col : list cell) : NoDup (count_table col).*1.
Proof. rewrite count_table_keys. apply NoDup_unique_from. Qed.

Lemma NoDup_value_counts (col : list cell) : NoDup (value_counts col).*1.
Proof. rewrite value_counts_Permutation. apply NoDup_count_table. Qed.

(** The entries of the table of counts: one for each present value, with
    the number of its occurrences. *)
Lemma elem_of_count_table (col : list cell) (s : string) (n : nat) :
  (s, n) ∈ count_table col ↔
  Some s ∈ col ∧ n = length (filter (λ c, c = Some s) col).
Proof.
  split.
  - intros Hin. split; [|by apply count_table_count].
    apply elem_of_nonnull. fold (nonnull col).
    apply (elem_of_unique (nonnull col)). unfold nonnull.
    rewrite <-count_table_keys. apply list_elem_of_fmap. by exists (s, n).
  - intros [Hs ->].
    assert (s ∈ (count_table col).*1) as ((s' & n) & Hs' & Hin)%list_elem_of_fmap.
    { rewrite count_table_keys. apply elem_of_unique. by apply elem_of_nonnull. }
    csimpl in Hs'. subst s'.
    by rewrite <-(count_table_count col s n Hin).
Qed.

Lemma count_table_Permutation (col col' : list cell) :
  col ≡ₚ col' → count_table col ≡ₚ count_table col'.
Proof.
  intros Hp. apply NoDup_Permutation.
  - eapply NoDup_fmap_1, NoDup_count_table.
  - eapply NoDup_fmap_1, NoDup_count_table.
  - intros [s n]. rewrite !elem_of_count_table. by rewrite Hp.
Qed.

Lemma value_counts_heights (col col' : list cell) :
  col ≡ₚ col' → (value_counts col).*2 = (value_counts col').*2.
Proof.
  intros Hp. apply (StronglySorted_unique_strong (λ x y : nat, y ≤ x)).
  - intros x y _ _ ? ?. lia.
  - apply (StronglySorted_fmap snd (λ x y : string * nat, y.2 ≤ x.2)); [done|].
    apply value_counts_sorted.
  - apply (StronglySorted_fmap snd (λ x y : string * nat, y.2 ≤ x.2)); [done|].
    apply value_counts_sorted.
  - by rewrite !value_counts_Permutation, (count_table_Permutation _ _ Hp).
Qed.

(** X15.  The sort column does not change what the charts count: the two
    charts without limit show the same bars, possibly in another order,
    and the two top-ten charts show bars of the same heights. *)
Theorem charts_ignore_sort_column (sort_column : sort_option) (filtered_df : table) :
  effect_counts (sort_dropdown sort_column filtered_df) ≡ₚ effect_counts filtered_df ∧
  sample_counts (sort_dropdown sort_column filtered_df) ≡ₚ sample_counts filtered_df ∧
  (condition_counts (sort_dropdown sort_column filtered_df)).*2
  = (condition_counts filtered_df).*2 ∧
  (microbe_counts (sort_dropdown sort_column filtered_df)).*2
  = (microbe_counts filtered_df).*2.
Proof.
  pose proof (sort_dropdown_Permutation sort_column filtered_df) as Hp.
  unfold effect_counts, sample_counts, condition_counts, microbe_counts, head.
  split; [|split; [|split]].
  - rewrite !value_counts_Permutation. apply count_table_Permutation. by rewrite Hp.
  - rewrite !value_counts_Permutation. apply count_table_Permutation. by rewrite Hp.
  - rewrite !fmap_take. f_equal. apply value_counts_heights. by rewrite Hp.
  - rewrite !fmap_take. f_equal. apply value_counts_heights. by rewrite Hp.
Qed.

(** X16.  A value left out of a top-ten chart is not counted more often
    than any value shown in it, and the chart has at most ten bars. *)
Theorem top_ten_are_largest (filtered_df : table) (chart all : list (string * nat))
    (p q : string * nat) :
  (chart = condition_counts filtered_df ∧
   all = value_counts (Condition <$> filtered_df)) ∨
  (chart = microbe_counts filtered_df ∧
   all = value_counts (Microbe <$> filtered_df)) →
  p ∈ chart → q ∈ all → q ∉ chart →
  q.2 ≤ p.2 ∧ length chart ≤ 10.
Proof.
  intros Hchart Hp Hq Hnot.
  assert (∃ col : row → cell, chart = take 10 (value_counts (col <$> filtered_df)) ∧
            all = value_counts (col <$> filtered_df)) as (col & -> & ->)
    by (destruct Hchart as [[-> ->]|[-> ->]]; eauto).
  split; [|rewrite length_take; lia].
  pose proof (value_counts_sorted (col <$> filtered_df)) as Hs.
  rewrite <-(take_drop 10 (value_counts (col <$> filtered_df))) in Hs, Hq.
  apply elem_of_app in Hq as [Hq|Hq]; [done|].
  by apply (StronglySorted_app_1_elem_of _ _ _ p q) in Hs.
Qed.

Lemma top_ten_are_largest_witness :
  ("N00", 1) ∈ condition_counts eighteen_conditions ∧
  ("N02", 1) ∈ value_counts (Condition <$> eighteen_conditions) ∧
  (("N02", 1) ∉ condition_counts eighteen_conditions) ∧
  ("N02", 1).2 ≤ ("N00", 1).2 ∧
  length (condition_counts eighteen_conditions) ≤ 10.
Proof.
  assert (H1 : ("N00", 1) ∈ condition_counts eighteen_conditions)
    by (apply (bool_decide_unpack _); vm_compute; exact I).
  assert (H2 : ("N02", 1) ∈ value_counts (Condition <$> eighteen_conditions))
    by (apply (bool_decide_unpack _); vm_compute; exact I).
  assert (H3 : ("N02", 1) ∉ condition_counts eighteen_conditions)
    by (apply (bool_decide_unpack _); vm_compute; exact I).
  split; [exact H1|]. split; [exact H2|]. split; [exact H3|].
  exact (top_ten_are_largest eighteen_conditions _ _ _ _
           (or_introl (conj eq_refl eq_refl)) H1 H2 H3).
Defined.

Lemma length_count_positive (col : list cell) (s : string) :
  Some s ∈ col → 1 ≤ length (filter (λ c, c = Some s) col).
Proof.
  intros Hs. assert (Some s ∈ filter (λ c, c = Some s) col) as Hin
    by by apply list_elem_of_filter.
  destruct (filter _ col); [by apply elem_of_nil in Hin|csimpl; lia].
Qed.

(** X17.  A chart has one bar for each value that occurs in the column,
    no value twice, each as high as the number of rows with that value,
    which is at least one; it has no bar exactly when the column is
    empty in every row. *)
Theorem chart_bars (filtered_df : table) (col : row → cell) :
  NoDup (value_counts (col <$> filtered_df)).*1 ∧
  (∀ s n, (s, n) ∈ value_counts (col <$> filtered_df) ↔
     (∃ r, r ∈ filtered_df ∧ col r = Some s) ∧
     n = length (filter (λ r, col r = Some s) filtered_df)) ∧
  (∀ s n, (s, n) ∈ value_counts (col <$> filtered_df) → 1 ≤ n ≤ length filtered_df) ∧
  (value_counts (col <$> filtered_df) = [] ↔ Forall (λ r, col r = NaN) filtered_df).
Proof.
  assert (∀ s n, (s, n) ∈ value_counts (col <$> filtered_df) ↔
     (∃ r, r ∈ filtered_df ∧ col r = Some s) ∧
     n = length (filter (λ r, col r = Some s) filtered_df)) as Hin.
  { intros s n. rewrite value_counts_Permutation, elem_of_count_table.
    rewrite list_elem_of_fmap, (length_filter_fmap col (λ c, c = Some s)).
    naive_solver. }
  split; [apply NoDup_value_counts|]. split; [exact Hin|]. split.
  - intros s n [(r & Hr & Hc) ->]%Hin. split; [|apply length_filter].
    rewrite <-(length_filter_fmap col (λ c, c = Some s)).
    apply length_count_positive. rewrite <-Hc. by apply list_elem_of_fmap_2.
  - split.
    + intros Hnil. apply Forall_forall. intros r Hr.
      destruct (col r) as [s|] eqn:Hc; [exfalso|done].
      assert ((s, length (filter (λ r, col r = Some s) filtered_df))
              ∈ value_counts (col <$> filtered_df)) as H by (apply Hin; eauto).
      rewrite Hnil in H. by apply elem_of_nil in H.
    + intros Hall. apply elem_of_nil_inv. intros [s n] [(r & Hr & Hc) _]%Hin.
      rewrite Forall_forall in Hall. specialize (Hall r Hr). congruence.
Qed.

(** ** Rows without a sort key *)

(** X18.  Sorting by a column puts the rows without a value in that
    column after all the others and leaves them in their original order,
    whatever the size of the table; the rows before them are the rows
    with a value, rearranged. *)
Theorem sort_keeps_missing_rows_last (sort_column : sort_option) (col : row → cell)
    (filtered_df : table) :
  column_of sort_column = Some col →
  ∃ with_value,
    sort_dropdown sort_column filtered_df
    = with_value ++ filter (λ r, col r = NaN) filtered_df ∧
    Forall (λ r, is_Some (col r)) with_value ∧
    with_value ≡ₚ filter (λ r, is_Some (col r)) filtered_df.
Proof.
  intros Hcol. unfold sort_dropdown, sort_values. rewrite Hcol.
  rewrite (take_rows_nargsort String.ltb col).
  eexists. split; [done|]. split.
  - apply (rows_present col). intros p.
    apply (ordered_elem_of String.ltb).
  - rewrite <-(present_row_at col).
    by rewrite (ordered_Permutation String.ltb).
Qed.

Lemma sort_keeps_missing_rows_last_witness :
  column_of Sort_Effect = Some Effect ∧
  ∃ with_value,
    sort_dropdown Sort_Effect
      (microbe_row "Bacteroides fragilis" :: sample_table
       ++ [microbe_row "Akkermansia muciniphila"])
    = with_value
      ++ filter (λ r, Effect r = NaN)
           (microbe_row "Bacteroides fragilis" :: sample_table
            ++ [microbe_row "Akkermansia muciniphila"]) ∧
    Forall (λ r, is_Some (Effect r)) with_value ∧
    with_value
    ≡ₚ filter (λ r, is_Some (Effect r))
         (microbe_row "Bacteroides fragilis" :: sample_table
          ++ [microbe_row "Akkermansia muciniphila"]).
Proof.
  split; [reflexivity|].
  exact (sort_keeps_missing_rows_last Sort_Effect Effect _ eq_refl).
Defined.

(** ** Trimming *)

Lemma append_cons (x : ascii) (a b : string) :
  String x a +:+ b = String x (a +:+ b).
Proof. reflexivity. Qed.

Lemma append_assoc (a b c : string) : (a +:+ b) +:+ c = a +:+ (b +:+ c).
Proof.
  induction a as [|x a IH]; [done|]. by rewrite !append_cons, IH.
Qed.

Lemma append_empty (a : string) : a +:+ "" = a.
Proof. induction a as [|x a IH]; [done|]. by rewrite append_cons, IH. Qed.

Lemma rev_app_append (s1 s2 : string) :
  String.rev_app s1 s2 = String.rev s1 +:+ s2.
Proof.
  unfold String.rev. revert s2. induction s1 as [|x s1 IH]; intros s2; csimpl; [done|].
  rewrite (IH (String x s2)), (IH (String x "")). by rewrite append_assoc.
Qed.

Lemma rev_cons (x : ascii) (s : string) :
  String.rev (String x s) = String.rev s +:+ String x "".
Proof. unfold String.rev at 1. csimpl. apply rev_app_append. Qed.

Lemma rev_append (a b : string) :
  String.rev (a +:+ b) = String.rev b +:+ String.rev a.
Proof.
  induction a as [|x a IH]; [by rewrite append_empty|].
  by rewrite append_cons, !rev_cons, IH, append_assoc.
Qed.

Lemma rev_involutive (s : string) : String.rev (String.rev s) = s.
Proof.
  induction s as [|x s IH]; [done|]. by rewrite rev_cons, rev_append, IH.
Qed.

Lemma lstrip_idemp (s : string) : Py.lstrip (Py.lstrip s) = Py.lstrip s.
Proof.
  induction s as [|x s IH]; csimpl; [done|].
  destruct (Py.isspace x) eqn:E; [done|]. csimpl. by rewrite E.
Qed.

Lemma lstrip_append (a b : string) (c : ascii) :
  Py.isspace c = false →
  Py.lstrip (a +:+ String c b) = Py.lstrip a +:+ String c b.
Proof.
  intros Hc. induction a as [|x a IH]; [csimpl; by rewrite Hc|].
  rewrite append_cons. csimpl. by destruct (Py.isspace x).
Qed.

Lemma rstrip_cons (c : ascii) (s : string) :
  Py.isspace c = false → Py.rstrip (String c s) = String c (Py.rstrip s).
Proof.
  intros Hc. unfold Py.rstrip.
  by rewrite rev_cons, (lstrip_append _ "" c Hc), rev_append.
Qed.

Lemma rstrip_idemp (s : string) : Py.rstrip (Py.rstrip s) = Py.rstrip s.
Proof. unfold Py.rstrip. by rewrite rev_involutive, lstrip_idemp. Qed.

Lemma lstrip_rstrip (s : string) :
  Py.lstrip (Py.rstrip (Py.lstrip s)) = Py.rstrip (Py.lstrip s).
Proof.
  induction s as [|x s IH]; csimpl; [done|].
  destruct (Py.isspace x) eqn:E; [done|].
  rewrite rstrip_cons by done. csimpl. by rewrite E.
Qed.

Lemma strip_idemp (s : string) : Py.strip (Py.strip s) = Py.strip s.
Proof. unfold Py.strip. by rewrite lstrip_rstrip, rstrip_idemp. Qed.

Lemma lstrip_head (s rest : string) (c : ascii) :
  Py.lstrip s = String c rest → Py.isspace c = false.
Proof.
  induction s as [|x s IH]; csimpl; [done|].
  destruct (Py.isspace x) eqn:E; [done|]. by intros [= <- _].
Qed.

Lemma rstrip_last (s rest : string) (c : ascii) :
  Py.rstrip s = rest +:+ String c "" → Py.isspace c = false.
Proof.
  unfold Py.rstrip. intros H. apply (f_equal String.rev) in H.
  rewrite rev_involutive, rev_append in H.
  by apply lstrip_head in H.
Qed.

(** X19.  The names the upload branch works with are the trimmed cells
    of the Microbe column: a name is read exactly when it is [strip] of
    some cell, it neither starts nor ends with a whitespace character,
    and trimming it again changes nothing. *)
Theorem uploaded_names_are_trimmed (input_df : dataframe) (col uploaded_microbes : list cell) :
  getitem input_df "Microbe" = Ok col →
  read_queries input_df = ([], inr uploaded_microbes) →
  (∀ q, Some q ∈ uploaded_microbes ↔ ∃ raw, Some raw ∈ col ∧ q = Py.strip raw) ∧
  (∀ q, Some q ∈ uploaded_microbes →
     Py.strip q = q ∧
     (∀ c rest, q = String c rest → Py.isspace c = false) ∧
     (∀ c rest, q = rest +:+ String c "" → Py.isspace c = false)).
Proof.
  intros Hg Hr. rewrite (read_queries_stripped _ _ Hg) in Hr.
  case_bool_decide; [done|]. injection Hr as <-.
  assert (∀ q, Some q ∈ unique (strip_cell <$> col) ↔
               ∃ raw, Some raw ∈ col ∧ q = Py.strip raw) as Hin.
  { intros q. rewrite elem_of_unique, list_elem_of_fmap. split.
    - intros ([raw|] & [= ->] & Hraw). eauto.
    - intros (raw & Hraw & ->). by exists (Some raw). }
  split; [exact Hin|]. intros q (raw & _ & ->)%Hin. split; [apply strip_idemp|].
  split; intros c rest Hq.
  - apply (lstrip_head (Py.strip raw) rest). rewrite <-Hq.
    unfold Py.strip. apply lstrip_rstrip.
  - apply (rstrip_last (Py.strip raw) rest). rewrite <-Hq.
    unfold Py.strip. apply rstrip_idemp.
Qed.

Lemma uploaded_names_are_trimmed_witness :
  getitem blank_upload "Microbe" = Ok [Some "Nonexistent Genus"; Some "   "] ∧
  read_queries blank_upload = ([], inr [Some "Nonexistent Genus"; Some ""]) ∧
  (∀ q, Some q ∈ [Some "Nonexistent Genus"; Some ""] ↔
        ∃ raw, Some raw ∈ [Some "Nonexistent Genus"; Some "   "] ∧ q = Py.strip raw) ∧
  (∀ q, Some q ∈ [Some "Nonexistent Genus"; Some ""] →
     Py.strip q = q ∧
     (∀ c rest, q = String c rest → Py.isspace c = false) ∧
     (∀ c rest, q = rest +:+ String c "" → Py.isspace c = false)).
Proof.
  assert (H1 : getitem blank_upload "Microbe"
               = Ok [Some "Nonexistent Genus"; Some "   "]) by reflexivity.
  assert (H2 : read_queries blank_upload
               = ([], inr [Some "Nonexistent Genus"; Some ""])) by reflexivity.
  split; [exact H1|]. split; [exact H2|].
  exact (uploaded_names_are_trimmed _ _ _ H1 H2).
Defined.
